(** * zipfs: a ZIP archive as a virtual file system and HTTP handler

    A shallow embedding of the Go package [zipfs] (zipfs.go, check_etag.go,
    buf_pool.go) together with the properties of its specification.

    Conventions of the embedding:
    - Go integers are [Z]; conversions between widths are written out as
      [uint64], [int64], ... and shifts wrap explicitly;
    - Go strings are [string]; [[]byte] is [list Byte.byte];
    - Go maps are [gmap]; pointers to [fileInfo] are addresses ([nat]) into
      an explicit heap, so that two map keys may alias one node;
    - a Go slice that may be [nil] is an [option (list _)];
    - the standard library ([strings], [path], [fmt], [sort]) is modelled
      by small executable functions that follow the Go implementation. *)

From Stdlib Require Import ZArith Ascii String List Lia Bool.
From stdpp Require Import base option list sorting gmap strings.

Local Open Scope Z_scope.

(** ** Machine integers *)

Module GoInt.

Definition uint32 (x : Z) : Z := x mod 2 ^ 32.
Definition uint64 (x : Z) : Z := x mod 2 ^ 64.

(** Two's complement reinterpretation as a signed 64-bit integer. *)
Definition int64 (x : Z) : Z :=
  let u := x mod 2 ^ 64 in
  if u <? 2 ^ 63 then u else u - 2 ^ 64.

Definition is_uint32 (x : Z) : Prop := 0 <= x < 2 ^ 32.
Definition is_uint64 (x : Z) : Prop := 0 <= x < 2 ^ 64.

End GoInt.

(** ** Package fmt: the verbs [%x] and [%d] on unsigned integers *)

Module Fmt.

(** [const ldigits = "0123456789abcdefx"] *)
Definition ldigits : string := "0123456789abcdefx".

Definition digit (d : Z) : ascii :=
  match String.get (Z.to_nat d) ldigits with
  | Some c => c
  | None => "0"%char
  end.

(** [fmtInteger], base 16: digits are produced right to left,
    [for u >= 16 { buf[i] = digits[u&0xF]; u >>= 4 }], then the leading
    digit [digits[u]]. A uint64 has at most 16 hexadecimal digits. *)
Fixpoint fmt_x_loop (fuel : nat) (u : Z) (buf : string) : string :=
  match fuel with
  | O => String (digit u) buf
  | S n =>
      if 16 <=? u
      then fmt_x_loop n (Z.shiftr u 4) (String (digit (Z.land u 15)) buf)
      else String (digit u) buf
  end.

Definition fmt_x (u : Z) : string := fmt_x_loop 16 u "".

(** [fmtInteger], base 10:
    [for u >= 10 { next := u / 10; buf[i] = '0' + u - next*10; u = next }]. *)
Fixpoint fmt_d_loop (fuel : nat) (u : Z) (buf : string) : string :=
  match fuel with
  | O => String (digit u) buf
  | S n =>
      if 10 <=? u
      then let next := u / 10 in
           fmt_d_loop n next (String (digit (u - next * 10)) buf)
      else String (digit u) buf
  end.

Definition fmt_d (u : Z) : string := fmt_d_loop 20 u "".

End Fmt.

(** ** Reading numerals back

    An independent reader of lowercase hexadecimal numerals, used to state
    what a rendering denotes. *)

Module Numeral.

(** The code of a character, as the integer Go sees in a [byte]. *)
Definition code (c : ascii) : Z := Z.of_N (N_of_ascii c).

(** [c - '0'] for a decimal digit, [c - 'a' + 10] for a letter up to [f]. *)
Definition hex_digit_val (c : ascii) : option Z :=
  let n := code c in
  if (48 <=? n) && (n <=? 57) then Some (n - 48)
  else if (97 <=? n) && (n <=? 102) then Some (n - 87)
  else None.

Fixpoint hex_value_from (a : Z) (s : string) : option Z :=
  match s with
  | EmptyString => Some a
  | String c r =>
      match hex_digit_val c with
      | Some d => hex_value_from (16 * a + d) r
      | None => None
      end
  end.

(** The value of a non-empty string of lowercase hexadecimal digits. *)
Definition hex_value (s : string) : option Z :=
  match s with
  | EmptyString => None
  | _ => hex_value_from 0 s
  end.




(** No superfluous leading zero: the numeral is ["0"] or starts with a
    non-zero digit. *)
Definition canonical (s : string) : Prop :=
  s = "0" \/ exists c r, s = String c r /\ c <> "0"%char.

End Numeral.

(** ** The archive entries, as the core sees them ([zip.File]) *)

Module Zip.

(** Compression methods: [zip.Store = 0], [zip.Deflate = 8]. *)
Definition Store : Z := 0.
Definition Deflate : Z := 8.

Record File := mkFile {
  Name : string;
  CRC32 : Z;                    (* uint32 *)
  CompressedSize64 : Z;         (* uint64 *)
  UncompressedSize64 : Z;       (* uint64 *)
  UncompressedSize : Z;         (* uint32, legacy field *)
  Method : Z;                   (* uint16 *)
  Modified : Z;                 (* ModTime(), Unix seconds *)
  attrDir : bool;               (* external attributes mark a directory *)
  headerOffset : Z;             (* DataOffset(), offset of the payload *)
  content : list Byte.byte      (* the bytes delivered by Open() *)
}.

Definition wf_sizes (f : File) : Prop :=
  GoInt.is_uint32 (CRC32 f) /\ GoInt.is_uint64 (CompressedSize64 f).

End Zip.

(** ** calcEtag *)

(** [etag := uint64(f.CRC32) ^ (uint64(f.CompressedSize64&0xffffffff) << 32)] *)
Definition etagValue (f : Zip.File) : Z :=
  Z.lxor (GoInt.uint64 (Zip.CRC32 f))
    (GoInt.uint64
       (Z.shiftl (GoInt.uint64 (Z.land (Zip.CompressedSize64 f) 4294967295)) 32)).

Definition dquote : string := String (ascii_of_nat 34) "".

(** [return fmt.Sprintf(`"%x"`, etag)] *)
Definition calcEtag (f : Zip.File) : string :=
  dquote +:+ Fmt.fmt_x (etagValue f) +:+ dquote.


(** ** Package strings *)

Module Strings.

(** [strings.HasPrefix(s, prefix)] *)
Definition HasPrefix (s prefix : string) : bool := String.prefix prefix s.

(** [strings.HasSuffix(s, suffix)]:
    [len(s) >= len(suffix) && s[len(s)-len(suffix):] == suffix] *)
Definition HasSuffix (s suffix : string) : bool :=
  (String.length suffix <=? String.length s)%nat
  && String.eqb
       (String.substring (String.length s - String.length suffix)
          (String.length suffix) s)
       suffix.

(** [strings.TrimRight(s, cutset)] for a one-byte cutset:
    [for len(s) > 0 && s[len(s)-1] == c { s = s[:len(s)-1] }].
    Written by recursion from the left: a character is dropped exactly
    when it is [c] and everything after it has been dropped. *)
Fixpoint TrimRight (s : string) (c : ascii) : string :=
  match s with
  | EmptyString => EmptyString
  | String a r =>
      match TrimRight r c with
      | EmptyString => if Ascii.eqb a c then EmptyString else String a EmptyString
      | r' => String a r'
      end
  end.

(** [strings.TrimLeft(s, cutset)] for a one-byte cutset. *)
Fixpoint TrimLeft (s : string) (c : ascii) : string :=
  match s with
  | EmptyString => EmptyString
  | String a r => if Ascii.eqb a c then TrimLeft r c else s
  end.

(** [strings.Contains(s, substr)] *)
Fixpoint Contains (s substr : string) : bool :=
  String.prefix substr s
  || match s with
     | EmptyString => false
     | String _ r => Contains r substr
     end.

(** [strings.Compare(a, b) < 0]: bytewise lexicographic order. *)
Definition Less (a b : string) : bool := String.ltb a b.

End Strings.

(** ** Package path *)

Module Path.

Definition slash : ascii := "/"%char.
Definition dot : ascii := "."%char.

(** [path.Split]: the prefix up to and including the last slash, and the
    rest. *)
Fixpoint Split (p : string) : string * string :=
  match p with
  | EmptyString => (EmptyString, EmptyString)
  | String c r =>
      match Split r with
      | (EmptyString, file) =>
          if Ascii.eqb c slash then (String c EmptyString, file)
          else (EmptyString, String c file)
      | (dir, file) => (String c dir, file)
      end
  end.

(** The [lazybuf] of [path.Clean] is held reversed: [out] lists the bytes
    written so far, last byte first, and [out.w] is its length. *)

(** The [..] case with [out.w > dotdot]:
    [out.w--; for out.w > dotdot && out.index(out.w) != '/' { out.w-- }].
    [popped] is [out.index(out.w)], the byte just given up. *)
Fixpoint backtrack (dotdot : nat) (popped : ascii) (out : list ascii)
  : list ascii :=
  match out with
  | [] => []
  | c :: rest =>
      if (dotdot <? List.length out)%nat && negb (Ascii.eqb popped slash)
      then backtrack dotdot c rest
      else out
  end.

(** [for ; r < n && path[r] != '/'; r++ { out.append(path[r]) }] *)
Fixpoint copyElem (r : string) (out : list ascii) : string * list ascii :=
  match r with
  | EmptyString => (r, out)
  | String c r' =>
      if Ascii.eqb c slash then (r, out) else copyElem r' (c :: out)
  end.

Definition startsElemEnd (r : string) : bool :=
  match r with
  | EmptyString => true
  | String c _ => Ascii.eqb c slash
  end.

(** The main loop of [path.Clean], on the unread input [r]. *)
Fixpoint cleanLoop (fuel : nat) (rooted : bool) (r : string)
    (out : list ascii) (dotdot : nat) : list ascii :=
  match fuel with
  | O => out
  | S fuel' =>
      match r with
      | EmptyString => out
      | String c r1 =>
          if Ascii.eqb c slash then
            (* empty path element *)
            cleanLoop fuel' rooted r1 out dotdot
          else if Ascii.eqb c dot && startsElemEnd r1 then
            (* . element *)
            cleanLoop fuel' rooted r1 out dotdot
          else if Ascii.eqb c dot
                  && match r1 with
                     | String c1 r2 => Ascii.eqb c1 dot && startsElemEnd r2
                     | EmptyString => false
                     end then
            (* .. element: remove to last / *)
            let r2 := match r1 with String _ r2 => r2 | EmptyString => r1 end in
            if (dotdot <? List.length out)%nat then
              match out with
              | popped :: rest =>
                  cleanLoop fuel' rooted r2 (backtrack dotdot popped rest) dotdot
              | [] => cleanLoop fuel' rooted r2 out dotdot
              end
            else if negb rooted then
              let out1 := if (0 <? List.length out)%nat then slash :: out else out in
              let out2 := dot :: dot :: out1 in
              cleanLoop fuel' rooted r2 out2 (List.length out2)
            else cleanLoop fuel' rooted r2 out dotdot
          else
            (* real path element; add slash if needed *)
            let out1 :=
              if (rooted && negb (List.length out =? 1)%nat)
                 || (negb rooted && negb (List.length out =? 0)%nat)
              then slash :: out else out in
            let '(r', out2) := copyElem r out1 in
            cleanLoop fuel' rooted r' out2 dotdot
      end
  end.

(** [path.Clean] *)
Definition Clean (p : string) : string :=
  match p with
  | EmptyString => "."
  | String c r =>
      let rooted := Ascii.eqb c slash in
      let out :=
        if rooted then cleanLoop (String.length p) true r [slash] 1
        else cleanLoop (S (String.length p)) false p [] 0 in
      match out with
      | [] => "."
      | _ => string_of_list_ascii (List.rev out)
      end
  end.

(** [path.Dir]: [dir, _ := Split(path); return Clean(dir)] *)
Definition Dir (p : string) : string := Clean (fst (Split p)).

(** [path.Base] *)
Definition Base (p : string) : string :=
  match p with
  | EmptyString => "."
  | _ =>
      let p1 := Strings.TrimRight p slash in
      match snd (Split p1) with
      | EmptyString => "/"
      | b => b
      end
  end.

(** [filepath.Ext]: the suffix beginning at the final dot in the final
    element of the path; empty if there is no dot. *)
Fixpoint Ext (p : string) : string :=
  match p with
  | EmptyString => EmptyString
  | String c r =>
      match Ext r with
      | EmptyString =>
          if Ascii.eqb c dot && negb (Strings.Contains r "/") then p
          else EmptyString
      | e => e
      end
  end.

End Path.


(** ** Errors *)

Inductive error : Type :=
| errFileClosed                       (* "file closed" *)
| errNotDirectory                     (* "not a directory" *)
| errDirectory                        (* "is a directory" *)
| errFileSystemClosed                 (* "filesystem closed", expected by TestOpen *)
| EOF                                 (* io.EOF *)
| ErrNotExist                         (* os.ErrNotExist *)
| ErrInvalid                          (* os.ErrInvalid *)
| ErrClosed                           (* os.ErrClosed *)
| ErrAlgorithm                        (* zip.ErrAlgorithm *)
| nilDereference                      (* run-time panic: nil pointer dereference *)
| PathError (op path : string) (err : error).   (* os.PathError *)

(** ** Streams and temporary files *)

Abbreviation bytes := (list Byte.byte).

(** [zip.File.Mode().IsDir()]: the directory bit comes from the external
    attributes or from a trailing slash in the name. *)
Definition zipModeIsDir (f : Zip.File) : bool :=
  Zip.attrDir f || Strings.HasSuffix (Zip.Name f) "/".

(** [zip.File.Open()]: a decompressing reader over the entry, or
    [ErrAlgorithm] when no decompressor is registered for the method. *)
Definition zipOpen (f : Zip.File) : error + bytes :=
  if (Zip.Method f =? Zip.Store) || (Zip.Method f =? Zip.Deflate)
  then inr (Zip.content f)
  else inl ErrAlgorithm.

(** The [io.ReadCloser] returned by [zip.File.Open]: the bytes not yet
    delivered, and whether it has been closed. *)
Record streamReader := mkStream {
  pending : bytes;
  sclosed : bool
}.

(** [Read(p)] with [len(p) = n]: as many bytes as fit, [io.EOF] once the
    stream is exhausted. The archive is taken to be intact, so that the
    reader meets neither a checksum nor a format error. *)
Definition streamRead (r : streamReader) (n : nat)
  : streamReader * bytes * option error :=
  if sclosed r then (r, [], Some ErrClosed)
  else match n, pending r with
       | O, _ => (r, [], None)
       | _, [] => (r, [], Some EOF)
       | _, _ => (mkStream (drop n (pending r)) false, take n (pending r), None)
       end.

Definition streamClose (r : streamReader) : streamReader :=
  mkStream (pending r) true.

(** An [os.File]: a path on the disk and a cursor. *)
Record osFile := mkOsFile {
  fpath : string;
  fpos : Z;
  fclosed : bool
}.

Abbreviation Disk := (gmap string bytes).

Definition fileRead (d : Disk) (f : osFile) (n : nat)
  : osFile * bytes * option error :=
  if fclosed f then (f, [], Some ErrClosed)
  else match d !! fpath f with
       | None => (f, [], Some ErrNotExist)
       | Some data =>
           let rest := drop (Z.to_nat (fpos f)) data in
           match n, rest with
           | O, _ => (f, [], None)
           | _, [] => (f, [], Some EOF)
           | _, _ =>
               let got := take n rest in
               (mkOsFile (fpath f) (fpos f + Z.of_nat (List.length got)) false,
                got, None)
           end
       end.

(** [os.File.Seek(offset, whence)] with [whence] 0, 1 or 2
    ([io.SeekStart], [io.SeekCurrent], [io.SeekEnd]). *)
Definition fileSeek (d : Disk) (f : osFile) (offset whence : Z)
  : osFile * Z * option error :=
  if fclosed f then (f, 0, Some ErrClosed)
  else match d !! fpath f with
       | None => (f, 0, Some ErrNotExist)
       | Some data =>
           let target :=
             if whence =? 0 then Some offset
             else if whence =? 1 then Some (fpos f + offset)
             else if whence =? 2 then Some (Z.of_nat (List.length data) + offset)
             else None in
           match target with
           | Some t =>
               if t <? 0 then (f, 0, Some ErrInvalid)
               else (mkOsFile (fpath f) t false, t, None)
           | None => (f, 0, Some ErrInvalid)
           end
       end.

Definition fileClose (f : osFile) : osFile := mkOsFile (fpath f) (fpos f) true.

(** ** The directory index *)

(** [type fileInfo struct]; [fileInfos] holds pointers to the children.
    The back pointer [fs] is never read and the mutex guards [tempPath]
    only; neither is represented. *)
Record fileInfo := mkFileInfo {
  name : string;
  zipFile : option Zip.File;
  fileInfos : list nat;
  tempPath : string
}.

(** The state outside any single object: the heap of [fileInfo] nodes
    (a pointer is an index), the temporary directory and the counter from
    which [ioutil.TempFile] draws fresh names. *)
Record World := mkWorld {
  heap : list fileInfo;
  disk : Disk;
  tempSeq : nat
}.

Definition fiName (fi : fileInfo) : string := Path.Base (name fi).

Definition fiIsDir (fi : fileInfo) : bool :=
  match zipFile fi with
  | None => true
  | Some zf => zipModeIsDir zf
  end.

Definition ModeDir : Z := 2 ^ 31.

(** [0555 | os.ModeDir] for directories, [0444] for files. *)
Definition fiMode (fi : fileInfo) : Z :=
  match zipFile fi with
  | None => Z.lor 365 ModeDir
  | Some _ => if fiIsDir fi then Z.lor 365 ModeDir else 292
  end.

Definition modeIsDir (m : Z) : bool := Z.testbit m 31.

Definition fiSize (fi : fileInfo) : Z :=
  match zipFile fi with
  | None => 0
  | Some zf =>
      if Zip.UncompressedSize64 zf =? 0
      then GoInt.int64 (Zip.UncompressedSize zf)
      else GoInt.int64 (Zip.UncompressedSize64 zf)
  end.

(** [time.Date(2001, 1, 1, 0, 0, 0, 0, time.UTC)] in Unix seconds. *)
Definition dirTime : Z := 978307200.

Definition fiModTime (fi : fileInfo) : Z :=
  match zipFile fi with
  | None => dirTime
  | Some zf => Zip.Modified zf
  end.

Definition fiSys (fi : fileInfo) : option Zip.File := zipFile fi.

(** [type fileInfoMap map[string]*fileInfo], with the heap it points into. *)
Abbreviation fileInfoMap := (gmap string nat).

(** [fileInfoMap.FindOrCreate] *)
Definition FindOrCreate (fm : fileInfoMap) (h : list fileInfo) (nm : string)
  : fileInfoMap * list fileInfo * nat :=
  let strippedName := Strings.TrimRight nm "/" in
  match fm !! nm with
  | Some fi => (fm, h, fi)
  | None =>
      let fi := List.length h in
      let h1 := h ++ [mkFileInfo nm None [] ""] in
      let fm1 := <[nm := fi]> fm in
      let fm2 :=
        if decide (strippedName = nm) then fm1
        else <[strippedName := fi]> fm1 in
      (fm2, h1, fi)
  end.

(** The key under which the parent directory of [nm] is registered. *)
Definition parentName (nm : string) : string :=
  let strippedName := Strings.TrimRight nm "/" in
  let dirName := Path.Dir strippedName in
  if decide (dirName = ".") then "/"
  else if negb (Strings.HasSuffix dirName "/") then dirName +:+ "/"
  else dirName.

(** [fileInfoMap.FindOrCreateParent] *)
Definition FindOrCreateParent (fm : fileInfoMap) (h : list fileInfo)
    (nm : string) : fileInfoMap * list fileInfo * nat :=
  FindOrCreate fm h (parentName nm).

Definition setZipFile (zf : Zip.File) (fi : fileInfo) : fileInfo :=
  mkFileInfo (name fi) (Some zf) (fileInfos fi) (tempPath fi).

Definition appendChild (c : nat) (fi : fileInfo) : fileInfo :=
  mkFileInfo (name fi) (zipFile fi) (fileInfos fi ++ [c]) (tempPath fi).

Definition setChildren (cs : list nat) (fi : fileInfo) : fileInfo :=
  mkFileInfo (name fi) (zipFile fi) cs (tempPath fi).

Definition setTempPath (p : string) (fi : fileInfo) : fileInfo :=
  mkFileInfo (name fi) (zipFile fi) (fileInfos fi) p.

(** One iteration of the first loop of [New]. *)
Definition addEntry (st : fileInfoMap * list fileInfo) (zf : Zip.File)
  : fileInfoMap * list fileInfo :=
  let '(fm, h) := st in
  let '(fm1, h1, fi) := FindOrCreate fm h (Zip.Name zf) in
  let h2 := alter (setZipFile zf) fi h1 in
  let '(fm2, h3, dirEntry) := FindOrCreateParent fm1 h2 (Zip.Name zf) in
  (fm2, alter (appendChild fi) dirEntry h3).

(** [fileInfoList.Less], negated and with the arguments swapped:
    [a] may stand before [b]. *)
Definition nameOf (h : list fileInfo) (p : nat) : string :=
  match h !! p with
  | Some fi => fiName fi
  | None => ""
  end.

Definition childLe (h : list fileInfo) (a b : nat) : Prop :=
  String.le (nameOf h a) (nameOf h b).

#[global] Instance childLe_dec h : RelDecision (childLe h).
Proof. intros a b. unfold childLe. apply _. Defined.

(** [sort.Sort] promises a permutation in which no element is [Less]
    than its predecessor; merge sort is one such procedure. *)
Definition sortSort (h : list fileInfo) (l : list nat) : list nat :=
  merge_sort (childLe h) l.

(** The body of the second loop of [New], for one map entry. *)
Definition sortNode (key : string) (p : nat) (h : list fileInfo)
  : list fileInfo :=
  match h !! p with
  | Some fi =>
      if (1 <? List.length (fileInfos fi))%nat
      then alter (setChildren (sortSort h (fileInfos fi))) p h
      else h
  | None => h
  end.

(** [type FileSystem struct]; the three resources are [nil] after
    [Close]. *)
Record FileSystem := mkFS {
  readerAt : option bytes;
  reader : option (list Zip.File);
  closer : option unit;
  fsInfos : fileInfoMap
}.

(** [New], from the point where [zip.NewReader] has parsed the archive
    [raw] into [entries]. *)
Definition buildIndex (entries : list Zip.File) : fileInfoMap * list fileInfo :=
  let '(fm, h) := foldl addEntry (∅, []) entries in
  (fm, map_fold sortNode h fm).

Definition New (raw : bytes) (entries : list Zip.File) : FileSystem * World :=
  let '(fm, h) := buildIndex entries in
  (mkFS (Some raw) (Some entries) (Some tt) fm, mkWorld h ∅ 0).

(** [FileSystem.Close] *)
Definition fsClose (fs : FileSystem) : FileSystem * option error :=
  (mkFS None None None (fsInfos fs), None).

(** ** Open handles *)

Record fileReader := mkReader {
  rname : string;                       (* the name used to open *)
  rfileInfo : nat;
  rreader : option streamReader;
  rfile : option osFile;
  closed : bool;
  readdir : option (list nat)
}.

Definition pathError (f : fileReader) (op : string) (err : error) : error :=
  PathError op (rname f) err.

(** [fileInfo.openReader] *)
Definition openReader (fi : nat) (nm : string) : fileReader :=
  mkReader nm fi None None false None.

(** [FileSystem.Open] *)
Definition fsOpen (fs : FileSystem) (nm : string) : error + fileReader :=
  let nm := Path.Clean nm in
  let trimmedName := Strings.TrimLeft nm "/" in
  match fsInfos fs !! trimmedName with
  | None => inl (PathError "Open" nm ErrNotExist)
  | Some fi => inr (openReader fi nm)
  end.

(** [ioutil.TempFile("", "zipfs")]: a fresh name in the temporary
    directory. *)
Definition tempName (seq : nat) : string :=
  "/tmp/zipfs" +:+ Fmt.fmt_d (Z.of_nat seq).

(** [createTempFile]: the whole entry is copied to a new temporary file,
    which is returned rewound to offset 0. The only failure represented
    is that of [zip.File.Open]; creating, writing and rewinding the file
    are taken to succeed. *)
Definition createTempFile (w : World) (zf : option Zip.File)
  : World * (error + osFile) :=
  match zf with
  | None => (w, inl nilDereference)
  | Some f =>
      match zipOpen f with
      | inl e => (w, inl e)
      | inr data =>
          let p := tempName (tempSeq w) in
          (mkWorld (heap w) (<[p := data]> (disk w)) (S (tempSeq w)),
           inr (mkOsFile p 0 false))
      end
  end.

(** [fileInfo.openFile] *)
Definition openFile (w : World) (fi : nat) : World * (error + osFile) :=
  match heap w !! fi with
  | None => (w, inl nilDereference)
  | Some node =>
      if decide (tempPath node = "") then
        match createTempFile w (zipFile node) with
        | (w1, inl e) => (w1, inl e)
        | (w1, inr tempFile) =>
            (* remember the name for next time *)
            (mkWorld (alter (setTempPath (fpath tempFile)) fi (heap w1))
               (disk w1) (tempSeq w1),
             inr tempFile)
        end
      else
        (* temp file already exists *)
        match disk w !! tempPath node with
        | Some _ => (w, inr (mkOsFile (tempPath node) 0 false))
        | None => (w, inl (PathError "open" (tempPath node) ErrNotExist))
        end
  end.

(** [fileInfo.readdir] *)
Definition fiReaddir (h : list fileInfo) (fi : nat) : error + list nat :=
  match h !! fi with
  | None => inl nilDereference
  | Some node =>
      if negb (modeIsDir (fiMode node)) then inl errNotDirectory
      else inr (fileInfos node)
  end.

Definition setReader (r : option streamReader) (f : fileReader) : fileReader :=
  mkReader (rname f) (rfileInfo f) r (rfile f) (closed f) (readdir f).
Definition setFile (o : option osFile) (f : fileReader) : fileReader :=
  mkReader (rname f) (rfileInfo f) (rreader f) o (closed f) (readdir f).
Definition setClosed (f : fileReader) : fileReader :=
  mkReader (rname f) (rfileInfo f) (rreader f) (rfile f) true (readdir f).
Definition setReaddir (l : option (list nat)) (f : fileReader) : fileReader :=
  mkReader (rname f) (rfileInfo f) (rreader f) (rfile f) (closed f) l.

(** [fileReader.Close]. Closing the stream and the descriptor is taken
    to succeed ([err1] and [err2] are nil), so the result is nil. *)
Definition Close (f : fileReader) : fileReader * option error :=
  let f1 := setReader (streamClose <$> rreader f) f in
  let f2 := setFile (fileClose <$> rfile f1) f1 in
  (setClosed f2, None).

(** [fileReader.Read], for a buffer of [n] bytes. *)
Definition Read (w : World) (f : fileReader) (n : nat)
  : fileReader * bytes * option error :=
  if closed f then (f, [], Some (pathError f "Read" errFileClosed))
  else match rfile f with
  | Some file =>
      let '(file1, got, err) := fileRead (disk w) file n in
      (setFile (Some file1) f, got, err)
  | None =>
      let opened :=
        match rreader f with
        | Some r => inr r
        | None =>
            match heap w !! rfileInfo f with
            | Some (mkFileInfo _ (Some zf) _ _) =>
                match zipOpen zf with
                | inr data => inr (mkStream data false)
                | inl e => inl e
                end
            | _ => inl nilDereference
            end
        end in
      match opened with
      | inl e => (f, [], Some e)
      | inr r =>
          let '(r1, got, err) := streamRead r n in
          (setReader (Some r1) f, got, err)
      end
  end.

(** [fileReader.Seek]. Closing the stream is taken to succeed; the
    field [reader] keeps pointing at the closed stream, as in the source. *)
Definition Seek (w : World) (f : fileReader) (offset whence : Z)
  : World * fileReader * Z * option error :=
  if closed f then (w, f, 0, Some (pathError f "Seek" errFileClosed))
  else
    (* The reader cannot seek, so close it. *)
    let f1 := setReader (streamClose <$> rreader f) f in
    match rfile f1 with
    | Some file =>
        let '(file1, pos, err) := fileSeek (disk w) file offset whence in
        (w, setFile (Some file1) f1, pos, err)
    | None =>
        match openFile w (rfileInfo f1) with
        | (w1, inl e) => (w1, f1, 0, Some e)
        | (w1, inr osf) =>
            let '(file1, pos, err) := fileSeek (disk w1) osf offset whence in
            (w1, setFile (Some file1) f1, pos, err)
        end
    end.

(** [fileReader.Readdir] *)
Definition Readdir (w : World) (f : fileReader) (count : Z)
  : fileReader * option (list nat) * option error :=
  if 0 <? count then
    let loaded :=
      match readdir f with
      | Some l => inr l
      | None => fiReaddir (heap w) (rfileInfo f)
      end in
    match loaded with
    | inl e => (f, None, Some (pathError f "Readdir" e))
    | inr l =>
        if (Z.to_nat count <=? List.length l)%nat
        then (setReaddir (Some (drop (Z.to_nat count) l)) f,
              Some (take (Z.to_nat count) l), None)
        else (setReaddir None f, Some l, Some EOF)
    end
  else
    match fiReaddir (heap w) (rfileInfo f) with
    | inl e => (f, None, Some (pathError f "Readdir" e))
    | inr l => (f, Some l, None)
    end.

(** [fileReader.Stat] *)
Definition Stat (f : fileReader) : nat * option error := (rfileInfo f, None).


(** ** The buffer pool (buf_pool.go) *)

Definition bufSize : nat := Z.to_nat 32768.

(** The pool holds buffers, of which only the length matters here.
    [getBuf] takes one out if there is any and replaces it by a fresh one
    of [bufSize] bytes when it is too short. *)
Definition getBuf (pool : list nat) : list nat * nat :=
  match pool with
  | b :: rest => (rest, if (b <? bufSize)%nat then bufSize else b)
  | [] => ([], bufSize)
  end.

Definition freeBuf (pool : list nat) (b : nat) : list nat :=
  if (bufSize <=? b)%nat then b :: pool else pool.

(** ** HTTP messages *)

(** [http.Header]. Every key used by the package is already in canonical
    form, so [Get], [Set] and [Del] address the map directly. *)
Abbreviation Header := (gmap string (list string)).

Definition hGet (h : Header) (k : string) : string :=
  match h !! k with
  | Some (v :: _) => v
  | _ => ""
  end.

Definition hSet (h : Header) (k v : string) : Header := <[k := [v]]> h.
Definition hDel (h : Header) (k : string) : Header := delete k h.

(** The response under construction: headers, status and the bytes
    written so far (the [TestResponseWriter] of the test suite). *)
Record ResponseWriter := mkResponse {
  header : Header;
  status : Z;
  body : bytes
}.

Definition NewResponseWriter : ResponseWriter := mkResponse ∅ 200 [].

Definition withHeader (h : Header) (w : ResponseWriter) : ResponseWriter :=
  mkResponse h (status w) (body w).
Definition WriteHeader (code : Z) (w : ResponseWriter) : ResponseWriter :=
  mkResponse (header w) code (body w).
Definition Write (b : bytes) (w : ResponseWriter) : ResponseWriter :=
  mkResponse (header w) (status w) (body w ++ b).

Record Request := mkRequest {
  reqMethod : string;
  urlPath : string;
  reqHeader : Header
}.

Definition StatusNotModified : Z := 304.
Definition StatusNotFound : Z := 404.
Definition StatusInternalServerError : Z := 500.

(** [http.Error]: a plain-text reply with the given status and the
    message followed by a newline. *)
Definition httpError (w : ResponseWriter) (msg : string) (code : Z)
  : ResponseWriter :=
  let h1 := hSet (header w) "Content-Type" "text/plain; charset=utf-8" in
  let h2 := hSet h1 "X-Content-Type-Options" "nosniff" in
  Write (list_byte_of_string msg ++ [Byte.x0a]) (WriteHeader code (withHeader h2 w)).

Definition errorText : error -> string :=
  fix go e :=
    match e with
    | errFileClosed => "file closed"
    | errNotDirectory => "not a directory"
    | errDirectory => "is a directory"
    | errFileSystemClosed => "filesystem closed"
    | EOF => "EOF"
    | ErrNotExist => "file does not exist"
    | ErrInvalid => "invalid argument"
    | ErrClosed => "file already closed"
    | ErrAlgorithm => "zip: unsupported compression algorithm"
    | nilDereference => "runtime error: invalid memory address or nil pointer dereference"
    | PathError op path err => op +:+ " " +:+ path +:+ ": " +:+ go err
    end.

(** [internalServerError] *)
Definition internalServerError (w : ResponseWriter) (err : error)
  : ResponseWriter :=
  httpError w (errorText err) StatusInternalServerError.

(** The archive as an [io.ReaderAt]: [ReadAt(b, off)] with [len(b) = n]
    fills the whole buffer or fails. *)
Definition ReadAt (src : bytes) (n : nat) (off : Z) : error + bytes :=
  if off <? 0 then inl ErrInvalid
  else
    let got := take n (drop (Z.to_nat off) src) in
    if (List.length got <? n)%nat then inl EOF else inr got.

(** [time.Time.IsZero] on Unix seconds: January 1, year 1, 00:00 UTC. *)
Definition timeIsZero (t : Z) : bool := t =? -62135596800.

Section Handler.

(** Collaborators from the standard library that the handler only calls:
    the MIME table, the HTTP date parser and the range-aware content
    server. *)
Variable mimeTypeByExtension : string -> string.
Variable httpParseTime : string -> option Z.
Variable httpServeContent :
  ResponseWriter -> Request -> string -> Z -> bytes -> ResponseWriter.

(** [checkETag] (check_etag.go) *)
Definition checkETag (w : ResponseWriter) (r : Request) (modtime : Z)
  : ResponseWriter * string * bool :=
  let etag := hGet (header w) "Etag" in
  let rangeReq := hGet (reqHeader r) "Range" in
  let ir := hGet (reqHeader r) "If-Range" in
  let rangeReq :=
    if negb (String.eqb ir "") && negb (String.eqb ir etag) then
      let timeMatches :=
        if negb (timeIsZero modtime) then
          match httpParseTime ir with
          | Some t => t =? modtime
          | None => false
          end
        else false in
      if negb timeMatches then "" else rangeReq
    else rangeReq in
  let inm := hGet (reqHeader r) "If-None-Match" in
  if negb (String.eqb inm "") then
    (* Must know ETag. *)
    if String.eqb etag "" then (w, rangeReq, false)
    else if negb (String.eqb (reqMethod r) "GET")
            && negb (String.eqb (reqMethod r) "HEAD")
    then (w, rangeReq, false)
    else if String.eqb inm etag || String.eqb inm "*" then
      let h := hDel (hDel (header w) "Content-Type") "Content-Length" in
      (WriteHeader StatusNotModified (withHeader h w), "", true)
    else (w, rangeReq, false)
  else (w, rangeReq, false).

(** [setContentType] *)
Definition setContentType (w : ResponseWriter) (filename : string)
  : ResponseWriter :=
  let ctype :=
    match header w !! "Content-Type" with
    | None =>
        let ctype := mimeTypeByExtension (Path.Ext (Path.Base filename)) in
        if String.eqb ctype "" then "application/octet-stream" else ctype
    | Some (c :: _) => c
    | Some [] => ""
    end in
  if negb (String.eqb ctype "")
  then withHeader (hSet (header w) "Content-Type" ctype) w
  else w.

(** [io.CopyN(w, reader, n)] from a freshly opened entry. *)
Definition copyN (w : ResponseWriter) (data : bytes) (n : Z) : ResponseWriter :=
  Write (take (Z.to_nat n) data) w.

(** [serveIdentity] *)
Definition serveIdentity (w : ResponseWriter) (r : Request) (f : Zip.File)
  : ResponseWriter :=
  match zipOpen f with
  | inl err => internalServerError w err
  | inr data =>
      let w1 := setContentType w (Zip.Name f) in
      let w2 := withHeader (hDel (header w1) "Content-Encoding") w1 in
      let w3 :=
        withHeader
          (hSet (header w2) "Content-Length" (Fmt.fmt_d (Zip.UncompressedSize64 f)))
          w2 in
      if negb (String.eqb (reqMethod r) "HEAD")
      then copyN w3 data (GoInt.int64 (Zip.UncompressedSize64 f))
      else w3
  end.

(** The copy loop of [serveDeflate]: [for remaining > 0 { ... }] with a
    buffer of [buf] bytes. Every round moves at least one byte, so
    [remaining] rounds always suffice. *)
Fixpoint deflateLoop (fuel : nat) (src : bytes) (buf : nat)
    (remaining offset written : Z) (w : ResponseWriter) : ResponseWriter :=
  match fuel with
  | O => w
  | S fuel' =>
      if 0 <? remaining then
        let size :=
          if remaining <? Z.of_nat buf then Z.to_nat remaining else buf in
        match ReadAt src size offset with
        | inl err =>
            if written =? 0
            then internalServerError w err   (* nothing sent yet *)
            else w
        | inr b =>
            deflateLoop fuel' src buf
              (remaining - Z.of_nat size) (offset + Z.of_nat size)
              (written + Z.of_nat size) (Write b w)
        end
      else w
  end.

(** [serveDeflate]. [f.DataOffset()] and [w.Write] are taken to succeed;
    a failing [ReadAt] ends the loop as in the source. *)
Definition serveDeflate (pool : list nat) (w : ResponseWriter) (r : Request)
    (f : Zip.File) (src : bytes) : list nat * ResponseWriter :=
  let acceptEncoding := hGet (reqHeader r) "Accept-Encoding" in
  let acceptsDeflate := Strings.Contains acceptEncoding "deflate" in
  if negb acceptsDeflate then
    (* client will not accept deflate, so serve as identity *)
    (pool, serveIdentity w r f)
  else
    let w1 := setContentType w (Zip.Name f) in
    let w2 := withHeader (hSet (header w1) "Content-Encoding" "deflate") w1 in
    let w3 :=
      withHeader
        (hSet (header w2) "Content-Length" (Fmt.fmt_d (Zip.CompressedSize64 f)))
        w2 in
    if String.eqb (reqMethod r) "HEAD" then (pool, w3)
    else
      let remaining := GoInt.int64 (Zip.CompressedSize64 f) in
      let offset := Zip.headerOffset f in
      let '(pool1, buf) := getBuf pool in
      (freeBuf pool1 buf,
       deflateLoop (Z.to_nat remaining) src buf remaining offset 0 w3).

(** [serveStandard]: the entry is extracted to a temporary file, handed
    to [http.ServeContent], and the file is removed again. *)
Definition serveStandard (wd : World) (w : ResponseWriter) (r : Request)
    (f : Zip.File) : World * ResponseWriter :=
  match createTempFile wd (Some f) with
  | (wd1, inl err) => (wd1, internalServerError w err)
  | (wd1, inr tempFile) =>
      let data := default [] (disk wd1 !! fpath tempFile) in
      let w1 := httpServeContent w r (Zip.Name f) (Zip.Modified f) data in
      (mkWorld (heap wd1) (delete (fpath tempFile) (disk wd1)) (tempSeq wd1), w1)
  end.

(** [type fileHandler struct] *)
Record fileHandler := mkHandler {
  hReaderAt : bytes;
  m : gmap string Zip.File
}.

(** The loop of [newHandler]: entries are keyed with a leading slash; a
    later entry of the same name replaces an earlier one. *)
Definition handlerOver (raw : bytes) (entries : list Zip.File) : fileHandler :=
  mkHandler raw
    (foldl (fun acc f => <["/" +:+ Zip.Name f := f]> acc) ∅ entries).

(** [newHandler] (and [FileServer]). On a closed file system the loop
    dereferences the nil reader and panics: there is no handler then. *)
Definition newHandler (fs : FileSystem) : option fileHandler :=
  match reader fs, readerAt fs with
  | Some entries, Some raw => Some (handlerOver raw entries)
  | _, _ => None
  end.

(** The state a request runs in: the disk and the buffer pool. *)
Record Server := mkServer {
  world : World;
  pool : list nat
}.

(** The first lines of [ServeHTTP]: a URL path without a leading slash
    is given one, in the request itself. *)
Definition normalizeRequest (r : Request) : Request :=
  if negb (Strings.HasPrefix (urlPath r) "/")
  then mkRequest (reqMethod r) ("/" +:+ urlPath r) (reqHeader r)
  else r.

(** The key under which [ServeHTTP] looks a request up: the cleaned URL
    path. *)
Definition requestKey (r : Request) : string :=
  Path.Clean (urlPath (normalizeRequest r)).

(** [fileHandler.ServeHTTP] *)
Definition ServeHTTP (h : fileHandler) (sv : Server) (w : ResponseWriter)
    (r : Request) : Server * ResponseWriter :=
  let upath := requestKey r in
  let r := normalizeRequest r in
  match m h !! upath with
  | None => (sv, httpError w "404 page not found" StatusNotFound)
  | Some f =>
      let w1 := withHeader (hSet (header w) "Etag" (calcEtag f)) w in
      let '(w2, rangeReq, done) := checkETag w1 r (Zip.Modified f) in
      if done then (sv, w2)
      else if negb (String.eqb rangeReq "") then
        let '(wd, w3) := serveStandard (world sv) w2 r f in
        (mkServer wd (pool sv), w3)
      else if Zip.Method f =? Zip.Store then (sv, serveIdentity w2 r f)
      else if Zip.Method f =? Zip.Deflate then
        let '(pool1, w3) := serveDeflate (pool sv) w2 r f (hReaderAt h) in
        (mkServer (world sv) pool1, w3)
      else
        (sv, httpError w2
               ("unsupported zip method: " +:+ Fmt.fmt_d (Zip.Method f))
               StatusInternalServerError)
  end.

End Handler.

(** * Vocabulary of the properties *)

(** A string between double quotes. *)
Definition quoted (s : string) : string := dquote +:+ s +:+ dquote.



(** The children still to be listed by a handle: the retained remainder,
    or everything when no listing is in progress. *)
Definition toList (w : World) (f : fileReader) : error + list nat :=
  match readdir f with
  | Some l => inr l
  | None => fiReaddir (heap w) (rfileInfo f)
  end.

(** [Readdir(count)] called until it reports an error: the batches in the
    order returned, the error that ended the iteration, and the handle. *)
Fixpoint readdirLoop (fuel : nat) (w : World) (f : fileReader) (count : Z)
  : list (list nat) * option error * fileReader :=
  match fuel with
  | O => ([], None, f)
  | S fuel' =>
      match Readdir w f count with
      | (f1, batch, Some e) => ([default [] batch], Some e, f1)
      | (f1, batch, None) =>
          let '(bs, e, f2) := readdirLoop fuel' w f1 count in
          (default [] batch :: bs, e, f2)
      end
  end.

(** A list of nodes in lexicographic order of their base names. *)
Definition sortedByName (h : list fileInfo) (l : list nat) : Prop :=
  StronglySorted String.le (nameOf h <$> l).

(** The children of node [p] are in order. *)
Definition sortedChildren (h : list fileInfo) (p : nat) : Prop :=
  forall node, h !! p = Some node -> sortedByName h (fileInfos node).

#[local] Instance childLe_transitive h : Transitive (childLe h).
Proof. intros a b c. unfold childLe. apply transitivity. Qed.

#[local] Instance childLe_total h : Total (childLe h).
Proof. intros a b. unfold childLe. apply total. apply _. Qed.

(** [Read] with a buffer of [n] bytes, called until it reports an error
    (for a sound file, [io.EOF]): all bytes obtained, the error that ended
    the reading, and the handle. *)
Fixpoint readAll (fuel : nat) (w : World) (f : fileReader) (n : nat)
  : fileReader * bytes * option error :=
  match fuel with
  | O => (f, [], None)
  | S fuel' =>
      match Read w f n with
      | (f1, got, Some e) => (f1, got, Some e)
      | (f1, got, None) =>
          let '(f2, rest, e) := readAll fuel' w f1 n in
          (f2, got ++ rest, e)
      end
  end.

(** The one-byte string holding a slash. *)
Definition slashStr : string := String Path.slash "".


(** The buffer (last byte first) ends in a slash only when it is the
    root of a rooted path. *)
Definition headOK (rooted : bool) (l : list ascii) : Prop :=
  forall t, l = Path.slash :: t -> rooted = true /\ t = [].

(** No two slashes in a row. *)
Fixpoint noDoubleSlash (l : list ascii) : Prop :=
  match l with
  | [] => True
  | a :: t =>
      match t with
      | b :: _ => ~ (a = Path.slash /\ b = Path.slash)
      | [] => True
      end /\ noDoubleSlash t
  end.

(** What the loop of [path.Clean] maintains of its buffer: the two
    conditions above, and the first condition again for the part of the
    buffer below the [dotdot] mark, which backtracking never crosses. *)
Definition bufInv (rooted : bool) (out : list ascii) (dotdot : nat) : Prop :=
  headOK rooted out
  /\ noDoubleSlash out
  /\ (dotdot <= List.length out)%nat
  /\ headOK rooted (drop (List.length out - dotdot) out).




(** * Archives and requests to run the model on *)

(** The entry [img/circle.png] of the test archive: CRC32 0x529fb2ff,
    4758 bytes compressed, 5973 bytes uncompressed. *)
Definition circlePng : Zip.File :=
  Zip.mkFile "img/circle.png" 0x529fb2ff 4758 5973 5973 Zip.Deflate 0 false 0 [].

(** Stand-ins for the three collaborators of the handler. *)
Definition exMime (ext : string) : string :=
  if String.eqb ext ".png" then "image/png"
  else if String.eqb ext ".html" then "text/html; charset=utf-8"
  else "".

Definition exParseTime (s : string) : option Z := None.

Definition exServeContent (w : ResponseWriter) (r : Request) (nm : string)
    (modtime : Z) (data : bytes) : ResponseWriter := w.

(** Eight bytes of archive. *)
Definition exArchive : bytes :=
  [Byte.x50; Byte.x4b; Byte.x4b; Byte.x4c; Byte.x04; Byte.x00; Byte.x50; Byte.x4b].

(** A deflated entry of three stored bytes at offset 2, four bytes when
    inflated. *)
Definition exDeflated : Zip.File :=
  Zip.mkFile "js/app.js" 0x0badcafe 3 4 4 Zip.Deflate 1500000000 false 2
    [Byte.x61; Byte.x62; Byte.x61; Byte.x62].

(** The stored entry [random.dat] of the test archive, with its CRC32 and
    size, cut down to no content. *)
Definition exRandomDat : Zip.File :=
  Zip.mkFile "random.dat" 0x6c15f45b 0x2710 0x2710 0x2710 Zip.Store 1500000000 false 0 [].

Definition exHandler : fileHandler :=
  handlerOver exArchive [exDeflated; exRandomDat].

Definition exServer : Server := mkServer (mkWorld [] ∅ 0) [].

Definition exGet (path : string) (hdrs : list (string * list string)) : Request :=
  mkRequest "GET" path (list_to_map hdrs).

(** The entry named by claim C1: CRC32 0x27106c15, compressed size 0x45b. *)
Definition exClaimedEntry : Zip.File :=
  Zip.mkFile "random.dat" 0x27106c15 0x45b 0x45b 0x45b Zip.Deflate 0 false 0 [].

(** A stored entry with the given name and content. *)
Definition exEntry (nm : string) (data : bytes) : Zip.File :=
  Zip.mkFile nm 0 (Z.of_nat (List.length data)) (Z.of_nat (List.length data))
    (Z.of_nat (List.length data)) Zip.Store 1500000000 false 0 data.

(** An archive with a directory of five files, listed out of order, and
    one file at the top. *)
Definition exTree : list Zip.File :=
  [exEntry "lots/file-03" []; exEntry "lots/file-01" [Byte.x31];
   exEntry "lots/" []; exEntry "lots/file-02" [Byte.x32; Byte.x32];
   exEntry "lots/file-05" []; exEntry "lots/file-04" [];
   exEntry "readme.txt" [Byte.x68; Byte.x65; Byte.x6c; Byte.x6c; Byte.x6f]].

Definition exFS : FileSystem := fst (New [] exTree).

Definition exWorld : World := snd (New [] exTree).

(** A file [a] listed ahead of a directory [a/]. *)
Definition exClash : list Zip.File := [exEntry "a" []; exEntry "a/" []].

(** A directory entry listed with one and with two trailing slashes. *)
Definition exDoubled : list Zip.File := [exEntry "a/" []; exEntry "a//" []].

(** A handle on [/lots] with one child left to list. *)
Definition exLastPage : fileReader :=
  setReaddir (Some [5%nat]) (openReader 1 "/lots").

(** A handle on node 7 of the example archive, the file [readme.txt]. *)
Definition exReadme : fileReader := openReader 7 "/readme.txt".

(** The heap [h'] continues the heap [h]: every node is still there under
    its name, with at least the children it had. *)
Definition heapGrows (h h' : list fileInfo) : Prop :=
  forall i node, h !! i = Some node ->
    exists node', h' !! i = Some node'
      /\ name node' = name node
      /\ (forall c, c ∈ fileInfos node -> c ∈ fileInfos node').

(** Every key leads to a node that is named like the key, up to trailing
    slashes. *)
Definition keyInv (fm : fileInfoMap) (h : list fileInfo) : Prop :=
  forall k p, fm !! k = Some p ->
    exists node, h !! p = Some node
      /\ Strings.TrimRight (name node) "/" = Strings.TrimRight k "/".

(** The entry named [nm] is listed in its parent directory: the node
    registered under the parent's key has a child that is named like the
    entry, up to trailing slashes. *)
Definition listedInParent (fm : fileInfoMap) (h : list fileInfo) (nm : string)
  : Prop :=
  exists d dnode c cnode,
    fm !! parentName nm = Some d
    /\ h !! d = Some dnode
    /\ c ∈ fileInfos dnode
    /\ h !! c = Some cnode
    /\ Strings.TrimRight (name cnode) "/" = Strings.TrimRight nm "/".

(** The request without the header [k]. *)
Definition withoutHeader (k : string) (r : Request) : Request :=
  mkRequest (reqMethod r) (urlPath r) (hDel (reqHeader r) k).

(** The time of an [If-Range] header does not match the modification
    time: that time is unknown, or the header is no date, or another. *)
Definition timeMismatch (parseTime : string -> option Z) (ir : string)
    (modtime : Z) : Prop :=
  timeIsZero modtime = true \/ parseTime ir <> Some modtime.

(** Whether the handler passes the stored bytes of [f] through to the
    client of request [r]: the entry is deflated and the client's
    [Accept-Encoding] mentions deflate. *)
Definition passesThrough (r : Request) (f : Zip.File) : bool :=
  (Zip.Method f =? Zip.Deflate)
  && Strings.Contains (hGet (reqHeader r) "Accept-Encoding") "deflate".

(** A request by any method. *)
Definition exRequest (method path : string) (hdrs : list (string * list string))
  : Request :=
  mkRequest method path (list_to_map hdrs).

(** An entry compressed by a method the package does not serve (12,
    bzip2), and a deflated entry whose payload would run past the end of
    the eight bytes of archive. *)
Definition exBzip : Zip.File :=
  Zip.mkFile "old.bz2" 0x11223344 2 9 9 12 1500000000 false 1 [].

Definition exCutOff : Zip.File :=
  Zip.mkFile "big.js" 0x55667788 5 7 7 Zip.Deflate 1500000000 false 6 [].

(** A handler over the deflated entry, a stored file of five bytes and the
    two entries above. *)
Definition exHandler2 : fileHandler :=
  handlerOver exArchive
    [exDeflated;
     exEntry "readme.txt" [Byte.x68; Byte.x65; Byte.x6c; Byte.x6c; Byte.x6f];
     exBzip; exCutOff].

(** Every buffer in the pool has at least [bufSize] bytes. *)
Definition poolOK (pool0 : list nat) : Prop :=
  Forall (fun b => (bufSize <= b)%nat) pool0.

(** The example archive after [readme.txt] has been materialised once,
    and a handle on that entry which has gone to the end of its temporary
    file. *)
Definition exMaterialised : World := fst (openFile exWorld 7).

Definition exAtEnd : fileReader :=
  snd (fst (fst (Seek exMaterialised exReadme 0 2))).

(** The request is not settled by [If-None-Match]: the header names
    neither the entity tag nor every entity, or the method is one for which
    [checkETag] does not answer. *)
Definition notSettled (r : Request) (etag : string) : Prop :=
  (String.eqb (hGet (reqHeader r) "If-None-Match") etag = false
   /\ String.eqb (hGet (reqHeader r) "If-None-Match") "*" = false)
  \/ (reqMethod r <> "GET" /\ reqMethod r <> "HEAD").

(** The [If-Range] header [ir] lets the [Range] header stand: it is
    absent, or it is the entity tag, or it is a date that equals the known
    modification time. *)
Definition rangeStands (parseTime : string -> option Z) (ir etag : string)
    (modtime : Z) : Prop :=
  ir = "" \/ ir = etag
  \/ (timeIsZero modtime = false /\ parseTime ir = Some modtime).

(** A date parser that knows one date, the modification time of the
    example entries. *)
Definition exParseDate (s : string) : option Z :=
  if String.eqb s "Fri, 14 Jul 2017 02:40:00 GMT" then Some 1500000000 else None.

(** * Properties *)

(** ** Integers and numerals *)

Lemma uint64_id x : GoInt.is_uint64 x -> GoInt.uint64 x = x.
Proof. intros H. unfold GoInt.uint64. apply Z.mod_small. exact H. Qed.

Lemma int64_id x : 0 <= x < 2 ^ 63 -> GoInt.int64 x = x.
Proof.
  intros H. unfold GoInt.int64.
  rewrite Z.mod_small by lia.
  destruct (Z.ltb_spec x (2 ^ 63)); lia.
Qed.

Lemma small_cases (d : Z) :
  0 <= d < 16 ->
  d = 0 \/ d = 1 \/ d = 2 \/ d = 3 \/ d = 4 \/ d = 5 \/ d = 6 \/ d = 7 \/
  d = 8 \/ d = 9 \/ d = 10 \/ d = 11 \/ d = 12 \/ d = 13 \/ d = 14 \/ d = 15.
Proof. lia. Qed.

Lemma hex_digit_val_digit d :
  0 <= d < 16 -> Numeral.hex_digit_val (Fmt.digit d) = Some d.
Proof.
  intros H. destruct (small_cases d H) as
    [->|[->|[->|[->|[->|[->|[->|[->|[->|[->|[->|[->|[->|[->|[->| ->]]]]]]]]]]]]]]];
    reflexivity.
Qed.

Lemma digit_nonzero d : 0 < d < 16 -> Fmt.digit d <> "0"%char.
Proof.
  intros H. assert (H' : 0 <= d < 16) by lia.
  destruct (small_cases d H') as
    [->|[->|[->|[->|[->|[->|[->|[->|[->|[->|[->|[->|[->|[->|[->| ->]]]]]]]]]]]]]]];
    try lia; discriminate.
Qed.

Lemma append_cons c s t : String c s +:+ t = String c (s +:+ t).
Proof. reflexivity. Qed.

Lemma append_nil_l s : "" +:+ s = s.
Proof. reflexivity. Qed.

Lemma append_nil_r s : s +:+ "" = s.
Proof. induction s as [|c s IH]; [reflexivity|]. rewrite append_cons, IH. reflexivity. Qed.

Lemma append_assoc s1 s2 s3 : (s1 +:+ s2) +:+ s3 = s1 +:+ (s2 +:+ s3).
Proof.
  induction s1 as [|c s1 IH]; [reflexivity|].
  rewrite !append_cons, IH. reflexivity.
Qed.

Lemma fmt_x_loop_app fuel : forall u buf,
  Fmt.fmt_x_loop fuel u buf = Fmt.fmt_x_loop fuel u "" +:+ buf.
Proof.
  induction fuel as [|n IH]; intros u buf; simpl.
  - reflexivity.
  - destruct (16 <=? u); [|reflexivity].
    rewrite IH. rewrite (IH _ (String _ "")).
    rewrite append_assoc. reflexivity.
Qed.

Lemma hex_value_from_app s1 : forall a s2,
  Numeral.hex_value_from a (s1 +:+ s2) =
  Numeral.hex_value_from a s1 ≫= fun a' => Numeral.hex_value_from a' s2.
Proof.
  induction s1 as [|c s1 IH]; intros a s2.
  - reflexivity.
  - rewrite append_cons. simpl.
    destruct (Numeral.hex_digit_val c); [apply IH | reflexivity].
Qed.

Lemma shiftr4_land15 u : 0 <= u -> 16 * Z.shiftr u 4 + Z.land u 15 = u.
Proof.
  intros H. rewrite Z.shiftr_div_pow2 by lia.
  change 15 with (Z.ones 4). rewrite Z.land_ones by lia.
  change (2 ^ 4) with 16. symmetry. apply Z.div_mod. lia.
Qed.

Lemma hex_value_fmt_x_loop fuel : forall u,
  0 <= u < 16 ^ Z.of_nat (S fuel) ->
  Numeral.hex_value_from 0 (Fmt.fmt_x_loop fuel u "") = Some u.
Proof.
  induction fuel as [|n IH]; intros u Hu.
  - simpl. change (16 ^ Z.of_nat 1) with 16 in Hu.
    rewrite hex_digit_val_digit by lia. f_equal; lia.
  - cbn [Fmt.fmt_x_loop]. destruct (Z.leb_spec 16 u) as [Hge|Hlt].
    + rewrite fmt_x_loop_app, hex_value_from_app.
      assert (Hq : 0 <= Z.shiftr u 4 < 16 ^ Z.of_nat (S n)).
      { rewrite Z.shiftr_div_pow2 by lia. change (2 ^ 4) with 16.
        split; [apply Z.div_pos; lia|].
        apply Z.div_lt_upper_bound; [lia|].
        replace (Z.of_nat (S (S n))) with (Z.succ (Z.of_nat (S n))) in Hu by lia.
        rewrite Z.pow_succ_r in Hu by lia. lia. }
      rewrite (IH _ Hq). simpl.
      assert (Hd : 0 <= Z.land u 15 < 16).
      { change 15 with (Z.ones 4). rewrite Z.land_ones by lia.
        apply Z.mod_pos_bound. lia. }
      rewrite hex_digit_val_digit by exact Hd.
      f_equal. apply shiftr4_land15. lia.
    + simpl. rewrite hex_digit_val_digit by lia. f_equal; lia.
Qed.

Lemma fmt_x_loop_head fuel : forall u buf,
  0 < u < 16 ^ Z.of_nat (S fuel) ->
  exists c r, Fmt.fmt_x_loop fuel u buf = String c r /\ c <> "0"%char.
Proof.
  induction fuel as [|n IH]; intros u buf Hu.
  - simpl. change (16 ^ Z.of_nat 1) with 16 in Hu.
    eexists _, _. split; [reflexivity|]. apply digit_nonzero. lia.
  - cbn [Fmt.fmt_x_loop]. destruct (Z.leb_spec 16 u) as [Hge|Hlt].
    + apply IH. rewrite Z.shiftr_div_pow2 by lia. change (2 ^ 4) with 16.
      split.
      * apply Z.div_str_pos. lia.
      * apply Z.div_lt_upper_bound; [lia|].
        replace (Z.of_nat (S (S n))) with (Z.succ (Z.of_nat (S n))) in Hu by lia.
        rewrite Z.pow_succ_r in Hu by lia. lia.
    + eexists _, _. split; [reflexivity|]. apply digit_nonzero. lia.
Qed.

Lemma fmt_x_nonempty u : Fmt.fmt_x u <> "".
Proof.
  unfold Fmt.fmt_x. rewrite fmt_x_loop_app.
  generalize 16%nat. intros n. revert u.
  induction n as [|n IH]; intros u; simpl.
  - discriminate.
  - destruct (16 <=? u); [|discriminate].
    rewrite fmt_x_loop_app.
    destruct (Fmt.fmt_x_loop n (Z.shiftr u 4) ""); discriminate.
Qed.

(** [%x] writes the canonical lowercase hexadecimal numeral of any
    64-bit value. *)
Lemma fmt_x_spec u :
  GoInt.is_uint64 u ->
  Numeral.hex_value (Fmt.fmt_x u) = Some u /\ Numeral.canonical (Fmt.fmt_x u).
Proof.
  intros [H0 H64]. split.
  - unfold Numeral.hex_value.
    destruct (Fmt.fmt_x u) eqn:E; [exfalso; exact (fmt_x_nonempty u E)|].
    rewrite <- E. unfold Fmt.fmt_x. apply hex_value_fmt_x_loop.
    split; [lia|]. eapply Z.lt_le_trans; [exact H64|]. vm_compute. discriminate.
  - unfold Numeral.canonical.
    destruct (Z.eq_dec u 0) as [->|Hne]; [left; reflexivity|].
    right. unfold Fmt.fmt_x. apply fmt_x_loop_head.
    split; [lia|]. eapply Z.lt_le_trans; [exact H64|]. vm_compute. discriminate.
Qed.

(** The value rendered by [calcEtag], in arithmetic terms. *)
Lemma etagValue_spec f :
  Zip.wf_sizes f ->
  etagValue f =
    Z.lxor (Zip.CRC32 f) ((Zip.CompressedSize64 f mod 2 ^ 32) * 2 ^ 32)
  /\ GoInt.is_uint64 (etagValue f).
Proof.
  intros [Hc Hs]. unfold etagValue.
  assert (Hm : 0 <= Zip.CompressedSize64 f mod 2 ^ 32 < 2 ^ 32)
    by (apply Z.mod_pos_bound; lia).
  assert (Hland : Z.land (Zip.CompressedSize64 f) 4294967295
                  = Zip.CompressedSize64 f mod 2 ^ 32).
  { change 4294967295 with (Z.ones 32). apply Z.land_ones. lia. }
  rewrite Hland.
  rewrite (uint64_id (Zip.CRC32 f)) by (unfold GoInt.is_uint32, GoInt.is_uint64 in *; lia).
  rewrite (uint64_id (_ mod _)) by (unfold GoInt.is_uint64; lia).
  rewrite Z.shiftl_mul_pow2 by lia.
  rewrite uint64_id by (unfold GoInt.is_uint64; nia).
  split; [reflexivity|].
  unfold GoInt.is_uint64. split.
  - apply Z.lxor_nonneg. unfold GoInt.is_uint32 in Hc. split; intros; nia.
  - assert (Hb : forall a b n, 0 <= n -> 0 <= a < 2 ^ n -> 0 <= b < 2 ^ n ->
                               Z.lxor a b < 2 ^ n).
    { intros a b n Hn Ha Hb.
      destruct (Z.eq_dec n 0) as [->|Hn0].
      { assert (a = 0) as -> by (simpl in Ha; lia).
        assert (b = 0) as -> by (simpl in Hb; lia). reflexivity. }
      destruct (Z.eq_dec (Z.lxor a b) 0) as [->|Hz]; [lia|].
      assert (Hnn : 0 <= Z.lxor a b) by (apply Z.lxor_nonneg; lia).
      apply Z.log2_lt_pow2; [lia|].
      eapply Z.le_lt_trans; [apply Z.log2_lxor; lia|].
      apply Z.max_lub_lt.
      - destruct (Z.eq_dec a 0) as [->|]; [simpl; lia|]. apply Z.log2_lt_pow2; lia.
      - destruct (Z.eq_dec b 0) as [->|]; [simpl; lia|]. apply Z.log2_lt_pow2; lia. }
    apply Hb; [lia| |]; unfold GoInt.is_uint32 in Hc; nia.
Qed.







(** ** The ETag *)

Lemma calcEtag_nonempty f : String.eqb (calcEtag f) "" = false.
Proof. reflexivity. Qed.

(** The entity tags that [TestServeHTTP] records for the deflated
    [circle.png] (4758 bytes compressed) and the stored [random.dat]. *)
Example calcEtag_circle_png : calcEtag circlePng = quoted "1296529fb2ff".
Proof. reflexivity. Qed.

Example calcEtag_random_dat : calcEtag exRandomDat = quoted "27106c15f45b".
Proof. reflexivity. Qed.

(** C2: for every archive entry, calcEtag returns exactly a double-quoted
    lowercase hexadecimal rendering of the 64-bit value CRC32 XOR ((compressed
    size masked to its low 32 bits) shifted left by 32 bits). The rendering
    is the canonical numeral: digits 0-9 and a-f only, no leading zero. *)
Theorem calcEtag_quoted_lowercase_hex (f : Zip.File) :
  Zip.wf_sizes f ->
  exists h : string,
    calcEtag f = quoted h
    /\ Numeral.hex_value h =
         Some (Z.lxor (Zip.CRC32 f) ((Zip.CompressedSize64 f mod 2 ^ 32) * 2 ^ 32))
    /\ Numeral.canonical h
    /\ 0 <= Z.lxor (Zip.CRC32 f) ((Zip.CompressedSize64 f mod 2 ^ 32) * 2 ^ 32) < 2 ^ 64.
Proof.
  intros Hwf.
  destruct (etagValue_spec f Hwf) as [Hval Hrange].
  destruct (fmt_x_spec _ Hrange) as [Hhex Hcan].
  exists (Fmt.fmt_x (etagValue f)).
  split; [reflexivity|].
  rewrite <- Hval. auto.
Qed.

Lemma calcEtag_quoted_lowercase_hex_witness :
  Zip.wf_sizes circlePng /\
  exists h : string,
    calcEtag circlePng = quoted h
    /\ Numeral.hex_value h =
         Some (Z.lxor (Zip.CRC32 circlePng)
                 ((Zip.CompressedSize64 circlePng mod 2 ^ 32) * 2 ^ 32))
    /\ Numeral.canonical h
    /\ 0 <= Z.lxor (Zip.CRC32 circlePng)
              ((Zip.CompressedSize64 circlePng mod 2 ^ 32) * 2 ^ 32) < 2 ^ 64.
Proof.
  assert (H : Zip.wf_sizes circlePng).
  { unfold Zip.wf_sizes, GoInt.is_uint32, GoInt.is_uint64. simpl. lia. }
  split; [exact H|]. exact (calcEtag_quoted_lowercase_hex circlePng H).
Defined.

(** ** The HTTP handler *)

Section HandlerProps.

Variable mime : string -> string.
Variable parseTime : string -> option Z.
Variable serveContent :
  ResponseWriter -> Request -> string -> Z -> bytes -> ResponseWriter.

Lemma hGet_hSet_eq (h : Header) k v : hGet (hSet h k v) k = v.
Proof. unfold hGet, hSet. rewrite lookup_insert_eq. reflexivity. Qed.

Lemma setContentType_header w filename k :
  k <> "Content-Type" ->
  header (setContentType mime w filename) !! k = header w !! k.
Proof.
  intros Hk. unfold setContentType.
  destruct (negb _); [|reflexivity].
  simpl. unfold hSet. rewrite lookup_insert_ne by congruence. reflexivity.
Qed.

Lemma setContentType_status w filename :
  status (setContentType mime w filename) = status w.
Proof. unfold setContentType. destruct (negb _); reflexivity. Qed.

Lemma setContentType_body w filename :
  body (setContentType mime w filename) = body w.
Proof. unfold setContentType. destruct (negb _); reflexivity. Qed.

(** A request whose [If-None-Match] is the entity tag already set on the
    response is answered by [checkETag] itself. *)
Lemma checkETag_match w r modtime etag :
  hGet (header w) "Etag" = etag ->
  String.eqb etag "" = false ->
  reqMethod r = "GET" ->
  hGet (reqHeader r) "If-None-Match" = etag ->
  checkETag parseTime w r modtime =
    (WriteHeader StatusNotModified
       (withHeader (hDel (hDel (header w) "Content-Type") "Content-Length") w),
     "", true).
Proof.
  intros He Hne Hm Hinm. unfold checkETag.
  rewrite Hinm, He, Hne, Hm, (String.eqb_refl etag). reflexivity.
Qed.

(** With no [Range] header and an [If-None-Match] that is absent or names
    another entity, [checkETag] leaves the response alone and asks for the
    whole entity. *)
Lemma checkETag_pass w r modtime :
  hGet (reqHeader r) "Range" = "" ->
  String.eqb (hGet (reqHeader r) "If-None-Match") (hGet (header w) "Etag") = false ->
  String.eqb (hGet (reqHeader r) "If-None-Match") "*" = false ->
  checkETag parseTime w r modtime = (w, "", false).
Proof.
  intros Hr Hinm Hstar. unfold checkETag. cbv zeta.
  rewrite Hr, Hinm, Hstar. simpl orb. cbv iota.
  set (rangeReq := if negb (String.eqb (hGet (reqHeader r) "If-Range") "") && _
                   then _ else _).
  assert (Hrange : rangeReq = "").
  { subst rangeReq.
    repeat match goal with |- context [if ?b then _ else _] => destruct b end;
      reflexivity. }
  rewrite Hrange.
  repeat match goal with |- context [if ?b then _ else _] => destruct b end;
    reflexivity.
Qed.


Lemma getBuf_positive pool0 : (0 < snd (getBuf pool0))%nat.
Proof.
  unfold getBuf. destruct pool0 as [|b rest]; simpl.
  - unfold bufSize. lia.
  - destruct (Nat.ltb_spec b bufSize); unfold bufSize in *; lia.
Qed.

Lemma normalize_header r : reqHeader (normalizeRequest r) = reqHeader r.
Proof. unfold normalizeRequest. destruct (negb _); reflexivity. Qed.

Lemma normalize_method r : reqMethod (normalizeRequest r) = reqMethod r.
Proof. unfold normalizeRequest. destruct (negb _); reflexivity. Qed.

(** [checkETag] either leaves the response alone or turns it into the
    304 reply; the effective range is empty or the [Range] header. *)
Lemma checkETag_shape w r modtime :
  exists w2 rr done,
    checkETag parseTime w r modtime = (w2, rr, done)
    /\ (rr = "" \/ rr = hGet (reqHeader r) "Range")
    /\ (w2 = w \/
        w2 = WriteHeader StatusNotModified
               (withHeader (hDel (hDel (header w) "Content-Type") "Content-Length") w)).
Proof.
  unfold checkETag. cbv zeta.
  repeat match goal with |- context [if ?b then _ else _] => destruct b end;
    eexists _, _, _; (split; [reflexivity|]); split; auto.
Qed.

Lemma httpError_header w msg code k :
  k <> "Content-Type" -> k <> "X-Content-Type-Options" ->
  header (httpError w msg code) !! k = header w !! k.
Proof.
  intros H1 H2. unfold httpError, hSet. simpl.
  rewrite !lookup_insert_ne by congruence. reflexivity.
Qed.

Lemma deflateLoop_header src buf k :
  k <> "Content-Type" -> k <> "X-Content-Type-Options" ->
  forall fuel remaining offset written w,
    header (deflateLoop fuel src buf remaining offset written w) !! k = header w !! k.
Proof.
  intros H1 H2. induction fuel as [|fuel IH]; intros remaining offset written w.
  - reflexivity.
  - cbn [deflateLoop]. destruct (0 <? remaining); [|reflexivity].
    cbv zeta. destruct (ReadAt _ _ _) as [err|b].
    + destruct (written =? 0); [|reflexivity].
      unfold internalServerError. apply httpError_header; assumption.
    + rewrite IH. reflexivity.
Qed.

Lemma serveIdentity_header w r f k :
  k <> "Content-Type" -> k <> "X-Content-Type-Options" ->
  k <> "Content-Encoding" -> k <> "Content-Length" ->
  header (serveIdentity mime w r f) !! k = header w !! k.
Proof.
  intros H1 H2 H3 H4. unfold serveIdentity.
  destruct (zipOpen f) as [err|data].
  - unfold internalServerError. apply httpError_header; assumption.
  - assert (Hh : header (withHeader
               (hSet (header (withHeader
                  (hDel (header (setContentType mime w (Zip.Name f))) "Content-Encoding")
                  (setContentType mime w (Zip.Name f))))
                  "Content-Length" (Fmt.fmt_d (Zip.UncompressedSize64 f)))
               (withHeader
                  (hDel (header (setContentType mime w (Zip.Name f))) "Content-Encoding")
                  (setContentType mime w (Zip.Name f)))) !! k = header w !! k).
    { simpl. unfold hSet, hDel.
      rewrite lookup_insert_ne by congruence.
      rewrite lookup_delete_ne by congruence.
      apply setContentType_header. assumption. }
    cbv zeta. destruct (negb _); [|exact Hh].
    unfold copyN, Write. simpl. exact Hh.
Qed.

Lemma serveDeflate_header pool0 w r f src k :
  k <> "Content-Type" -> k <> "X-Content-Type-Options" ->
  k <> "Content-Encoding" -> k <> "Content-Length" ->
  header (snd (serveDeflate mime pool0 w r f src)) !! k = header w !! k.
Proof.
  intros H1 H2 H3 H4. unfold serveDeflate. cbv zeta.
  destruct (negb _).
  - simpl. apply serveIdentity_header; assumption.
  - assert (Hh : forall w0, header w0 !! k = header w !! k ->
       header (withHeader
         (hSet (header (withHeader (hSet (header w0) "Content-Encoding" "deflate") w0))
            "Content-Length" (Fmt.fmt_d (Zip.CompressedSize64 f)))
         (withHeader (hSet (header w0) "Content-Encoding" "deflate") w0)) !! k
       = header w !! k).
    { intros w0 Hw0. simpl. unfold hSet.
      rewrite !lookup_insert_ne by congruence. exact Hw0. }
    destruct (String.eqb _ _).
    + simpl. apply Hh. apply setContentType_header. assumption.
    + destruct (getBuf pool0) as [pool1 buf]. simpl.
      rewrite deflateLoop_header by assumption.
      apply Hh. apply setContentType_header. assumption.
Qed.

(** Whatever strategy serves a request that carries no [Range] header,
    the entity tag set at the start is the one on the finished response. *)
Lemma ServeHTTP_sets_etag h sv w r f :
  m h !! requestKey r = Some f ->
  hGet (reqHeader r) "Range" = "" ->
  hGet (header (snd (ServeHTTP mime parseTime serveContent h sv w r))) "Etag"
    = calcEtag f.
Proof.
  intros Hf Hrange. rewrite <- (normalize_header r) in Hrange.
  unfold ServeHTTP. cbv zeta. rewrite Hf.
  set (r' := normalizeRequest r) in *.
  set (w1 := withHeader (hSet (header w) "Etag" (calcEtag f)) w).
  assert (Hw1 : header w1 !! "Etag" = Some [calcEtag f]).
  { subst w1. simpl. unfold hSet. apply lookup_insert_eq. }
  destruct (checkETag_shape w1 r' (Zip.Modified f))
    as (w2 & rr & done & Hck & Hrr & Hw2).
  rewrite Hck.
  assert (Hrr' : rr = "") by (destruct Hrr; congruence).
  assert (Hw2' : header w2 !! "Etag" = Some [calcEtag f]).
  { destruct Hw2 as [->| ->]; [exact Hw1|].
    simpl. unfold hDel. rewrite !lookup_delete_ne by discriminate. exact Hw1. }
  subst rr. unfold hGet.
  destruct done.
  - simpl. rewrite Hw2'. reflexivity.
  - simpl negb. cbv iota.
    destruct (Zip.Method f =? Zip.Store).
    + simpl. rewrite serveIdentity_header by discriminate.
      rewrite Hw2'. reflexivity.
    + destruct (Zip.Method f =? Zip.Deflate).
      * pose proof (serveDeflate_header (pool sv) w2 r' f (hReaderAt h) "Etag"
                      ltac:(discriminate) ltac:(discriminate)
                      ltac:(discriminate) ltac:(discriminate)) as Hd.
        destruct (serveDeflate mime (pool sv) w2 r' f (hReaderAt h)) as [pool1 w3].
        simpl in *. rewrite Hd, Hw2'. reflexivity.
      * simpl snd. rewrite httpError_header by discriminate.
        rewrite Hw2'. reflexivity.
Qed.

(** C6: for every GET request whose If-None-Match header value equals the
    ETag computed for the requested entry, the handler responds 304 Not
    Modified, the Content-Type and Content-Length headers are deleted from
    the response, and no body bytes are written. *)
Theorem if_none_match_gives_not_modified h sv w r f :
  m h !! requestKey r = Some f ->
  reqMethod r = "GET" ->
  hGet (reqHeader r) "If-None-Match" = calcEtag f ->
  exists w',
    ServeHTTP mime parseTime serveContent h sv w r = (sv, w')
    /\ status w' = StatusNotModified
    /\ header w' !! "Content-Type" = None
    /\ header w' !! "Content-Length" = None
    /\ hGet (header w') "Etag" = calcEtag f
    /\ body w' = body w.
Proof.
  intros Hf Hm Hinm.
  rewrite <- (normalize_method r) in Hm. rewrite <- (normalize_header r) in Hinm.
  unfold ServeHTTP. cbv zeta. rewrite Hf.
  rewrite (checkETag_match _ (normalizeRequest r) (Zip.Modified f) (calcEtag f));
    [| simpl; apply hGet_hSet_eq | apply calcEtag_nonempty | exact Hm | exact Hinm].
  eexists. split; [reflexivity|]. simpl. unfold hDel, hSet.
  repeat split.
  - rewrite lookup_delete_ne by discriminate. apply lookup_delete_eq.
  - apply lookup_delete_eq.
  - unfold hGet. rewrite !lookup_delete_ne by discriminate.
    rewrite lookup_insert_eq. reflexivity.
Qed.


(** C1 (amended): for every archive entry whose CRC32 is 0x6c15f45b and
    whose compressed size is 0x2710 (the stored random.dat of the test
    suite), the ETag computed by calcEtag, and set on the response by
    ServeHTTP for a request without a Range header, is exactly the string
    27106c15f45b in double quotes. *)
Theorem etag_of_random_dat h sv w r f :
  Zip.CRC32 f = 0x6c15f45b ->
  Zip.CompressedSize64 f = 0x2710 ->
  m h !! requestKey r = Some f ->
  hGet (reqHeader r) "Range" = "" ->
  calcEtag f = quoted "27106c15f45b"
  /\ hGet (header (snd (ServeHTTP mime parseTime serveContent h sv w r))) "Etag"
     = quoted "27106c15f45b".
Proof.
  intros Hcrc Hsize Hf Hrange.
  assert (He : calcEtag f = quoted "27106c15f45b").
  { unfold calcEtag, etagValue. rewrite Hcrc, Hsize. reflexivity. }
  split; [exact He|].
  rewrite (ServeHTTP_sets_etag h sv w r f Hf Hrange). exact He.
Qed.

End HandlerProps.

(** *** The handler on a small archive *)

Lemma if_none_match_gives_not_modified_witness :
  exists w',
    ServeHTTP exMime exParseTime exServeContent exHandler exServer NewResponseWriter
      (exGet "/js/app.js" [("If-None-Match", [calcEtag exDeflated])]) = (exServer, w')
    /\ status w' = StatusNotModified
    /\ header w' !! "Content-Type" = None
    /\ header w' !! "Content-Length" = None
    /\ hGet (header w') "Etag" = calcEtag exDeflated
    /\ body w' = body NewResponseWriter.
Proof.
  apply (if_none_match_gives_not_modified exMime exParseTime exServeContent
           exHandler exServer NewResponseWriter
           (exGet "/js/app.js" [("If-None-Match", [calcEtag exDeflated])])
           exDeflated).
  - vm_compute. reflexivity.
  - reflexivity.
  - vm_compute. reflexivity.
Defined.


Lemma etag_of_random_dat_witness :
  calcEtag exRandomDat = quoted "27106c15f45b"
  /\ hGet (header (snd (ServeHTTP exMime exParseTime exServeContent exHandler
                          exServer NewResponseWriter (exGet "random.dat" [])))) "Etag"
     = quoted "27106c15f45b".
Proof.
  apply (etag_of_random_dat exMime exParseTime exServeContent
           exHandler exServer NewResponseWriter (exGet "random.dat" []) exRandomDat).
  - reflexivity.
  - reflexivity.
  - vm_compute. reflexivity.
  - vm_compute. reflexivity.
Defined.

(** C1 as stated fails: for CRC32 0x27106c15 and compressed size 0x45b the
    size lands in the upper half of the 64-bit value and the CRC in the
    lower, so the ETag is 45b27106c15 in quotes, not 27106c15f45b. *)
Lemma etag_of_claimed_entry_differs :
  Zip.CRC32 exClaimedEntry = 0x27106c15
  /\ Zip.CompressedSize64 exClaimedEntry = 0x45b
  /\ calcEtag exClaimedEntry = quoted "45b27106c15"
  /\ calcEtag exClaimedEntry <> quoted "27106c15f45b".
Proof. repeat split. discriminate. Qed.

(** ** Open handles *)

(** C9: for every open handle, Stat returns the handle's file info with a
    nil error even after Close has been called on the handle; unlike Read
    and Seek, Stat is never gated on the closed flag. *)
Theorem Stat_ignores_Close (w : World) (f : fileReader) (n : nat) (offset whence : Z) :
  Stat f = (rfileInfo f, None)
  /\ closed (fst (Close f)) = true
  /\ Stat (fst (Close f)) = (rfileInfo f, None)
  /\ Read w (fst (Close f)) n
     = (fst (Close f), [], Some (PathError "Read" (rname f) errFileClosed))
  /\ Seek w (fst (Close f)) offset whence
     = (w, fst (Close f), 0, Some (PathError "Seek" (rname f) errFileClosed)).
Proof. repeat split. Qed.

(** [FileSystem.Close] releases the archive but leaves the index in
    place, and [Open] consults nothing but the index. *)
Theorem Open_ignores_Close (fs : FileSystem) (nm : string) :
  fsOpen (fst (fsClose fs)) nm = fsOpen fs nm.
Proof. reflexivity. Qed.

(** *** Paginated listing *)

Lemma Readdir_positive w f count l :
  0 < count -> toList w f = inr l ->
  Readdir w f count =
    if (Z.to_nat count <=? List.length l)%nat
    then (setReaddir (Some (drop (Z.to_nat count) l)) f,
          Some (take (Z.to_nat count) l), None)
    else (setReaddir None f, Some l, Some EOF).
Proof.
  intros Hc Hl. unfold Readdir. destruct (Z.ltb_spec 0 count); [|lia].
  unfold toList in Hl. rewrite Hl. reflexivity.
Qed.

Lemma readdirLoop_exhausts w count : forall fuel f l,
  0 < count -> toList w f = inr l ->
  (List.length l < fuel)%nat ->
  exists full last f',
    readdirLoop fuel w f count = (full ++ [last], Some EOF, f')
    /\ concat (full ++ [last]) = l
    /\ Forall (fun b => List.length b = Z.to_nat count) full
    /\ (List.length last < Z.to_nat count)%nat
    /\ List.length full = (List.length l / Z.to_nat count)%nat
    /\ readdir f' = None
    /\ rfileInfo f' = rfileInfo f.
Proof.
  induction fuel as [|fuel IH]; intros f l Hc Hl Hfuel; [lia|].
  cbn [readdirLoop]. rewrite (Readdir_positive w f count l Hc Hl).
  destruct (Nat.leb_spec (Z.to_nat count) (List.length l)) as [Hle|Hgt].
  - set (f1 := setReaddir (Some (drop (Z.to_nat count) l)) f).
    assert (Hl1 : toList w f1 = inr (drop (Z.to_nat count) l)) by reflexivity.
    destruct (IH f1 _ Hc Hl1) as (full & last & f' & Hloop & Hcat & Hall & Hlast & Hn & Hnil & Hfi).
    { rewrite length_drop. lia. }
    rewrite Hloop. exists (take (Z.to_nat count) l :: full), last, f'.
    split; [reflexivity|]. split; [|split; [|split; [|split; [|split]]]].
    + simpl. simpl in Hcat. rewrite Hcat. apply take_drop.
    + constructor; [|exact Hall]. rewrite length_take. lia.
    + exact Hlast.
    + simpl. rewrite Hn, length_drop.
      assert (Hk : (0 < Z.to_nat count)%nat) by lia.
      set (k := Z.to_nat count) in *. set (n := List.length l) in *.
      replace n with ((n - k) + 1 * k)%nat at 2 by lia.
      rewrite Nat.div_add by lia. lia.
    + exact Hnil.
    + exact Hfi.
  - exists [], l, (setReaddir None f).
    split; [reflexivity|]. split; [|split; [|split; [|split; [|split]]]].
    + simpl. apply app_nil_r.
    + constructor.
    + lia.
    + simpl. symmetry. apply Nat.div_small. lia.
    + reflexivity.
    + reflexivity.
Qed.

(** C10: for every directory handle whose paginated Readdir iteration has
    just returned io.EOF, a further Readdir call with a positive count on
    the same handle restarts the iteration from the first child: it returns
    the leading children of the sorted list, as a fresh handle would, and
    not an empty result (unless the directory is empty). *)
Theorem Readdir_restarts_after_EOF (w : World) (f f1 : fileReader)
    (count count' : Z) (batch : option (list nat)) (children : list nat) :
  0 < count ->
  Readdir w f count = (f1, batch, Some EOF) ->
  fiReaddir (heap w) (rfileInfo f) = inr children ->
  0 < count' ->
  readdir f1 = None
  /\ Readdir w f1 count' =
       (if (Z.to_nat count' <=? List.length children)%nat
        then (setReaddir (Some (drop (Z.to_nat count') children)) f1,
              Some (take (Z.to_nat count') children), None)
        else (setReaddir None f1, Some children, Some EOF))
  /\ snd (fst (Readdir w f1 count'))
     = snd (fst (Readdir w (openReader (rfileInfo f) (rname f)) count'))
  /\ (children <> [] -> snd (fst (Readdir w f1 count')) <> Some []).
Proof.
  intros Hc Hrd Hch Hc'.
  assert (Hf1 : f1 = setReaddir None f).
  { unfold Readdir in Hrd. destruct (Z.ltb_spec 0 count); [|lia].
    destruct (match readdir f with Some l => inr l | None => _ end) as [e|l].
    - inversion Hrd.
    - destruct (Z.to_nat count <=? List.length l)%nat; inversion Hrd. reflexivity. }
  assert (Hl1 : toList w f1 = inr children) by (subst f1; exact Hch).
  assert (Hl0 : toList w (openReader (rfileInfo f) (rname f)) = inr children)
    by exact Hch.
  split; [subst f1; reflexivity|].
  rewrite (Readdir_positive w f1 count' children Hc' Hl1).
  rewrite (Readdir_positive w _ count' children Hc' Hl0).
  split; [reflexivity|]. split.
  - destruct (Z.to_nat count' <=? List.length children)%nat; reflexivity.
  - intros Hne.
    destruct (Z.to_nat count' <=? List.length children)%nat; simpl.
    + destruct children as [|c cs]; [congruence|].
      destruct (Z.to_nat count') eqn:E; [lia|]. discriminate.
    + congruence.
Qed.

(** *** The children of every indexed directory are sorted *)

Lemma sortSort_sorted h l : sortedByName h (sortSort h l).
Proof.
  unfold sortedByName, sortSort.
  apply (StronglySorted_fmap (nameOf h) (childLe h) String.le).
  - intros x y Hxy. exact Hxy.
  - apply StronglySorted_merge_sort; apply _.
Qed.

Lemma sortSort_permutation h l : sortSort h l ≡ₚ l.
Proof. apply merge_sort_Permutation. Qed.

Lemma short_list_sorted h (l : list nat) :
  (List.length l <= 1)%nat -> sortedByName h l.
Proof.
  unfold sortedByName. destruct l as [|a [|b l]]; simpl; intros H; try lia.
  - constructor.
  - constructor; constructor.
Qed.

Lemma sortedByName_ext h h' l :
  (forall q, nameOf h' q = nameOf h q) -> sortedByName h l -> sortedByName h' l.
Proof.
  intros Hn. unfold sortedByName.
  assert (E : nameOf h' <$> l = nameOf h <$> l).
  { apply list_fmap_ext. intros _ q _. apply Hn. }
  rewrite E. auto.
Qed.

Lemma nameOf_alter_children h p cs q :
  nameOf (alter (setChildren cs) p h) q = nameOf h q.
Proof.
  unfold nameOf. rewrite list_lookup_alter.
  destruct (decide (p = q)) as [->|]; [|reflexivity].
  destruct (h !! q); reflexivity.
Qed.

Lemma sortNode_names k p h q : nameOf (sortNode k p h) q = nameOf h q.
Proof.
  unfold sortNode. destruct (h !! p) as [fi|]; [|reflexivity].
  destruct (1 <? List.length (fileInfos fi))%nat; [|reflexivity].
  apply nameOf_alter_children.
Qed.

Lemma sortNode_self k p h : sortedChildren (sortNode k p h) p.
Proof.
  intros node Hnode.
  apply (sortedByName_ext h); [intros q; apply sortNode_names|].
  unfold sortNode in Hnode. destruct (h !! p) as [fi|] eqn:Hp.
  - destruct (Nat.ltb_spec 1 (List.length (fileInfos fi))) as [Hlong|Hshort].
    + rewrite list_lookup_alter_eq, Hp in Hnode. simpl in Hnode.
      injection Hnode as <-. simpl. apply sortSort_sorted.
    + rewrite Hp in Hnode. injection Hnode as <-.
      apply short_list_sorted. lia.
  - rewrite Hp in Hnode. discriminate.
Qed.

Lemma sortNode_other k p h q :
  sortedChildren h q -> sortedChildren (sortNode k p h) q.
Proof.
  intros Hq. destruct (decide (p = q)) as [->|Hne]; [apply sortNode_self|].
  intros node Hnode.
  apply (sortedByName_ext h); [intros x; apply sortNode_names|].
  apply Hq. unfold sortNode in Hnode.
  destruct (h !! p) as [fi|]; [|exact Hnode].
  destruct (1 <? List.length (fileInfos fi))%nat; [|exact Hnode].
  rewrite list_lookup_alter_ne in Hnode by exact Hne. exact Hnode.
Qed.

(** After the second loop of [New] every node the map points to has its
    children in order. *)
Lemma sort_phase_sorted (fm : fileInfoMap) (h : list fileInfo) :
  forall k p, fm !! k = Some p -> sortedChildren (map_fold sortNode h fm) p.
Proof.
  apply (map_fold_weak_ind
           (fun r (mm : fileInfoMap) => forall k p, mm !! k = Some p -> sortedChildren r p)).
  - intros k p Hk. rewrite lookup_empty in Hk. discriminate.
  - intros i x mm r Hi IH k p Hk.
    destruct (decide (i = k)) as [->|Hne].
    + rewrite lookup_insert_eq in Hk. injection Hk as ->. apply sortNode_self.
    + rewrite lookup_insert_ne in Hk by exact Hne.
      apply sortNode_other. eapply IH. exact Hk.
Qed.

Lemma New_sorted raw entries fs w k p :
  New raw entries = (fs, w) -> fsInfos fs !! k = Some p -> sortedChildren (heap w) p.
Proof.
  unfold New, buildIndex.
  destruct (foldl addEntry (∅, []) entries) as [fm h].
  intros Hnew Hk. injection Hnew as <- <-. simpl in *.
  eapply sort_phase_sorted. exact Hk.
Qed.

(** C4: for every directory handle over a directory with N children,
    calling Readdir with a fixed positive count repeatedly returns exactly
    the N children in total, in lexicographically sorted order by base
    name; every call before the last returns count entries, the call that
    exhausts the remainder returns the final partial (possibly empty) batch
    together with io.EOF; and a single Readdir call with count <= 0 returns
    all N children with no error. *)
Theorem Readdir_pages_through_sorted_children
    (raw : bytes) (entries : list Zip.File) (fs : FileSystem) (w : World)
    (path : string) (f : fileReader) (children : list nat) (count : Z) :
  New raw entries = (fs, w) ->
  fsOpen fs path = inr f ->
  fiReaddir (heap w) (rfileInfo f) = inr children ->
  0 < count ->
  (exists full last f',
     readdirLoop (S (List.length children)) w f count = (full ++ [last], Some EOF, f')
     /\ concat (full ++ [last]) = children
     /\ Forall (fun b => List.length b = Z.to_nat count) full
     /\ (List.length last < Z.to_nat count)%nat
     /\ List.length full = (List.length children / Z.to_nat count)%nat)
  /\ sortedByName (heap w) children
  /\ (forall c, c <= 0 -> Readdir w f c = (f, Some children, None)).
Proof.
  intros Hnew Hopen Hdir Hcount.
  unfold fsOpen in Hopen.
  destruct (fsInfos fs !! Strings.TrimLeft (Path.Clean path) "/") as [p|] eqn:Hp;
    [|discriminate].
  injection Hopen as <-. simpl in Hdir.
  split; [|split].
  - destruct (readdirLoop_exhausts w count (S (List.length children))
                (openReader p (Path.Clean path)) children Hcount Hdir ltac:(lia))
      as (full & last & f' & H1 & H2 & H3 & H4 & H5 & _).
    exists full, last, f'. auto.
  - pose proof (New_sorted raw entries fs w _ p Hnew Hp) as Hs.
    unfold fiReaddir in Hdir. destruct (heap w !! p) as [node|] eqn:Hnode; [|discriminate].
    destruct (negb (modeIsDir (fiMode node))); [discriminate|].
    injection Hdir as <-. apply Hs. exact Hnode.
  - intros c Hc. unfold Readdir. destruct (Z.ltb_spec 0 c); [lia|].
    simpl. rewrite Hdir. reflexivity.
Qed.

Lemma Readdir_pages_through_sorted_children_witness :
  (exists full last f',
     readdirLoop (S (List.length [2; 4; 0; 6; 5]%nat)) exWorld
       (openReader 1 "/lots") 2 = (full ++ [last], Some EOF, f')
     /\ concat (full ++ [last]) = [2; 4; 0; 6; 5]%nat
     /\ Forall (fun b => List.length b = Z.to_nat 2) full
     /\ (List.length last < Z.to_nat 2)%nat
     /\ List.length full = (List.length [2; 4; 0; 6; 5]%nat / Z.to_nat 2)%nat)
  /\ sortedByName (heap exWorld) [2; 4; 0; 6; 5]%nat
  /\ (forall c, c <= 0 ->
        Readdir exWorld (openReader 1 "/lots") c
        = (openReader 1 "/lots", Some [2; 4; 0; 6; 5]%nat, None)).
Proof.
  apply (Readdir_pages_through_sorted_children [] exTree exFS exWorld "/lots"
           (openReader 1 "/lots") [2; 4; 0; 6; 5]%nat 2).
  - unfold exFS, exWorld. destruct (New [] exTree). reflexivity.
  - vm_compute. reflexivity.
  - vm_compute. reflexivity.
  - lia.
Defined.

(** *** Reading, seeking and reading again *)

(** Reading a handle that streams from the archive delivers what is still
    pending and ends in [io.EOF]. *)
Lemma readAll_stream w n : forall fuel f l,
  (0 < n)%nat ->
  closed f = false -> rfile f = None ->
  rreader f = Some (mkStream l false) ->
  (List.length l < fuel)%nat ->
  readAll fuel w f n = (setReader (Some (mkStream [] false)) f, l, Some EOF).
Proof.
  induction fuel as [|fuel IH]; intros f l Hn Hcl Hfile Hrd Hfuel; [lia|].
  cbn [readAll]. unfold Read. rewrite Hcl, Hfile, Hrd.
  unfold streamRead. simpl sclosed. cbv iota.
  destruct n as [|n']; [lia|].
  destruct l as [|b l'].
  - simpl. reflexivity.
  - simpl pending. cbv iota.
    set (f1 := setReader (Some (mkStream (drop (S n') (b :: l')) false)) f).
    rewrite (IH f1 (drop (S n') (b :: l'))); try reflexivity; try assumption.
    + subst f1. simpl. rewrite take_drop. reflexivity.
    + rewrite length_drop. simpl in *. lia.
Qed.

(** Reading a handle backed by a temporary file delivers the file from
    the cursor on and ends in [io.EOF]. *)
Lemma readAll_file w n : forall fuel f p pos data,
  (0 < n)%nat ->
  closed f = false ->
  rfile f = Some (mkOsFile p pos false) ->
  disk w !! p = Some data ->
  0 <= pos ->
  (List.length data - Z.to_nat pos < fuel)%nat ->
  exists f',
    readAll fuel w f n = (f', drop (Z.to_nat pos) data, Some EOF)
    /\ closed f' = false /\ rfileInfo f' = rfileInfo f.
Proof.
  induction fuel as [|fuel IH]; intros f p pos data Hn Hcl Hfile Hdisk Hpos Hfuel; [lia|].
  cbn [readAll]. unfold Read. rewrite Hcl, Hfile.
  unfold fileRead. simpl fclosed. simpl fpath. simpl fpos. cbv iota.
  rewrite Hdisk. cbv zeta.
  destruct n as [|n']; [lia|].
  destruct (drop (Z.to_nat pos) data) as [|b rest] eqn:Hrest.
  - eexists. split; [reflexivity|]. split; [exact Hcl|reflexivity].
  - set (got := take (S n') (b :: rest)).
    set (f1 := setFile (Some (mkOsFile p (pos + Z.of_nat (List.length got)) false)) f).
    assert (Hgot : (0 < List.length got)%nat) by (subst got; simpl; lia).
    assert (Hlen : (List.length (b :: rest) = List.length data - Z.to_nat pos)%nat).
    { rewrite <- Hrest, length_drop. reflexivity. }
    assert (Hgl : (List.length got <= List.length (b :: rest))%nat).
    { subst got. rewrite length_take. lia. }
    destruct (IH f1 p (pos + Z.of_nat (List.length got)) data) as (f' & Hrd & Hcl' & Hfi);
      try reflexivity; try assumption; try lia.
    rewrite Hrd. exists f'. split; [|split; [exact Hcl'|exact Hfi]].
    f_equal. f_equal.
    replace (Z.to_nat (pos + Z.of_nat (List.length got)))
      with (Z.to_nat pos + List.length got)%nat by lia.
    rewrite <- drop_drop, Hrest.
    subst got. rewrite length_take.
    destruct (Nat.le_gt_cases (S n') (List.length (b :: rest))) as [Hle|Hgt].
    + rewrite Nat.min_l by exact Hle. apply take_drop.
    + rewrite Nat.min_r by lia. rewrite drop_all, app_nil_r.
      apply take_ge. lia.
Qed.

(** The first reading of a fresh handle opens the entry and streams it. *)
Lemma readAll_fresh w n fuel f node zf data :
  (0 < n)%nat ->
  closed f = false -> rfile f = None -> rreader f = None ->
  heap w !! rfileInfo f = Some node ->
  zipFile node = Some zf ->
  zipOpen zf = inr data ->
  (List.length data < fuel)%nat ->
  readAll fuel w f n = (setReader (Some (mkStream [] false)) f, data, Some EOF).
Proof.
  intros Hn Hcl Hfile Hrd Hnode Hzf Hopen Hfuel.
  destruct fuel as [|fuel]; [lia|].
  cbn [readAll]. unfold Read. rewrite Hcl, Hfile, Hrd, Hnode.
  destruct node as [nm z cs tp]. simpl in Hzf. subst z. rewrite Hopen.
  unfold streamRead. simpl sclosed. simpl pending. cbv iota.
  destruct n as [|n']; [lia|].
  destruct data as [|b l'].
  - reflexivity.
  - cbv iota.
    set (f1 := setReader (Some (mkStream (drop (S n') (b :: l')) false)) f).
    rewrite (readAll_stream w (S n') fuel f1 (drop (S n') (b :: l')));
      try reflexivity; try assumption.
    + subst f1. simpl. rewrite take_drop. reflexivity.
    + rewrite length_drop. simpl in *. lia.
Qed.

(** The first [Seek] of a handle that has been streaming: the entry is
    materialised (or its materialisation found again) and the cursor set. *)
Lemma Seek_start_materialises w f node zf l :
  closed f = false -> rfile f = None ->
  rreader f = Some (mkStream l false) ->
  heap w !! rfileInfo f = Some node ->
  zipFile node = Some zf ->
  zipOpen zf = inr (Zip.content zf) ->
  (tempPath node = "" \/ disk w !! tempPath node = Some (Zip.content zf)) ->
  exists w2 p,
    Seek w f 0 0 =
      (w2, setFile (Some (mkOsFile p 0 false))
             (setReader (Some (mkStream l true)) f), 0, None)
    /\ disk w2 !! p = Some (Zip.content zf).
Proof.
  intros Hcl Hfile Hrd Hnode Hzf Hopen Htemp.
  unfold Seek. rewrite Hcl, Hrd. simpl fmap.
  change (streamClose (mkStream l false)) with (mkStream l true).
  simpl rfile. rewrite Hfile. simpl rfileInfo.
  unfold openFile. rewrite Hnode.
  destruct (decide (tempPath node = "")) as [Hnone|Hsome].
  - unfold createTempFile. rewrite Hzf, Hopen. simpl.
    unfold fileSeek. simpl. rewrite lookup_insert_eq. simpl.
    eexists _, _. split; [reflexivity|]. simpl. apply lookup_insert_eq.
  - destruct Htemp as [Hnone|Hdisk]; [contradiction|].
    rewrite Hdisk. unfold fileSeek. simpl. rewrite Hdisk. simpl.
    eexists _, _. split; [reflexivity|]. exact Hdisk.
Qed.

(** C3: for every file handle obtained from FileSystem.Open on a
    non-directory entry, reading the entire content, then calling
    Seek(0, 0), then reading the entire content again yields a byte sequence
    identical to the first read: both readings deliver exactly the content
    of the entry and end in io.EOF, and the seek reports offset 0. *)
Theorem read_seek_read_round_trip
    (fs : FileSystem) (w : World) (path : string) (f : fileReader)
    (node : fileInfo) (zf : Zip.File) (n fuel : nat) :
  fsOpen fs path = inr f ->
  heap w !! rfileInfo f = Some node ->
  zipFile node = Some zf ->
  fiIsDir node = false ->
  Zip.Method zf = Zip.Store \/ Zip.Method zf = Zip.Deflate ->
  tempPath node = "" \/ disk w !! tempPath node = Some (Zip.content zf) ->
  (0 < n)%nat ->
  (List.length (Zip.content zf) < fuel)%nat ->
  exists f1 w2 f2 f3 first second,
    readAll fuel w f n = (f1, first, Some EOF)
    /\ Seek w f1 0 0 = (w2, f2, 0, None)
    /\ readAll fuel w2 f2 n = (f3, second, Some EOF)
    /\ second = first
    /\ first = Zip.content zf.
Proof.
  intros Hopen Hnode Hzf Hfile Hmeth Htemp Hn Hfuel.
  assert (Hfresh : closed f = false /\ rfile f = None /\ rreader f = None).
  { unfold fsOpen in Hopen.
    destruct (fsInfos fs !! _); [|discriminate].
    injection Hopen as <-. auto. }
  destruct Hfresh as (Hcl & Hnf & Hnr).
  assert (Hzo : zipOpen zf = inr (Zip.content zf)).
  { unfold zipOpen. destruct Hmeth as [-> | ->]; reflexivity. }
  pose proof (readAll_fresh w n fuel f node zf _ Hn Hcl Hnf Hnr Hnode Hzf Hzo Hfuel)
    as Hfirst.
  set (f1 := setReader (Some (mkStream [] false)) f) in *.
  destruct (Seek_start_materialises w f1 node zf [] Hcl Hnf eq_refl Hnode Hzf Hzo Htemp)
    as (w2 & p & Hseek & Hdisk).
  set (f2 := setFile (Some (mkOsFile p 0 false))
               (setReader (Some (mkStream [] true)) f1)) in *.
  destruct (readAll_file w2 n fuel f2 p 0 (Zip.content zf) Hn Hcl eq_refl Hdisk
              ltac:(lia) ltac:(simpl; lia))
    as (f3 & Hsecond & _ & _).
  exists f1, w2, f2, f3, (Zip.content zf), (Zip.content zf).
  split; [exact Hfirst|]. split; [exact Hseek|].
  split; [exact Hsecond|]. split; reflexivity.
Qed.

(** An entry compressed by a method other than store and deflate cannot
    be read at all: both readings deliver nothing and fail alike, and
    so does the seek between them. *)
Lemma read_seek_read_unsupported
    (w : World) (f : fileReader) (node : fileInfo) (zf : Zip.File) (n fuel : nat) :
  closed f = false -> rfile f = None -> rreader f = None ->
  heap w !! rfileInfo f = Some node ->
  zipFile node = Some zf ->
  zipOpen zf = inl ErrAlgorithm ->
  tempPath node = "" ->
  (0 < fuel)%nat ->
  readAll fuel w f n = (f, [], Some ErrAlgorithm)
  /\ Seek w f 0 0 = (w, f, 0, Some ErrAlgorithm).
Proof.
  intros Hcl Hnf Hnr Hnode Hzf Hopen Htemp Hfuel.
  destruct node as [nm z cs tp]. simpl in Hzf, Htemp. subst z tp.
  split.
  - destruct fuel as [|fuel]; [lia|].
    cbn [readAll]. unfold Read. rewrite Hcl, Hnf, Hnr, Hnode, Hopen. reflexivity.
  - unfold Seek. rewrite Hcl, Hnr. simpl fmap.
    assert (Hf : setReader None f = f)
      by (destruct f; simpl in *; subst; reflexivity).
    rewrite Hf, Hnf. unfold openFile. rewrite Hnode. simpl.
    rewrite Hopen. reflexivity.
Qed.

Lemma read_seek_read_round_trip_witness :
  exists f1 w2 f2 f3 first second,
    readAll 6 exWorld (openReader 7 "/readme.txt") 4 = (f1, first, Some EOF)
    /\ Seek exWorld f1 0 0 = (w2, f2, 0, None)
    /\ readAll 6 w2 f2 4 = (f3, second, Some EOF)
    /\ second = first
    /\ first = Zip.content
                 (exEntry "readme.txt" [Byte.x68; Byte.x65; Byte.x6c; Byte.x6c; Byte.x6f]).
Proof.
  apply (read_seek_read_round_trip exFS exWorld "/readme.txt"
           (openReader 7 "/readme.txt")
           (mkFileInfo "readme.txt"
              (Some (exEntry "readme.txt" [Byte.x68; Byte.x65; Byte.x6c; Byte.x6c; Byte.x6f]))
              [] "")).
  - vm_compute. reflexivity.
  - vm_compute. reflexivity.
  - reflexivity.
  - reflexivity.
  - left. reflexivity.
  - left. reflexivity.
  - lia.
  - simpl. lia.
Defined.

(** ** The directory index *)

(** *** Trailing slashes *)

Lemma append_slash_nonempty t : t +:+ slashStr <> "".
Proof. destruct t; discriminate. Qed.

Lemma TrimRight_cons a r c :
  Strings.TrimRight (String a r) c =
    match Strings.TrimRight r c with
    | EmptyString => if Ascii.eqb a c then EmptyString else String a EmptyString
    | r' => String a r'
    end.
Proof. reflexivity. Qed.

Lemma TrimRight_not_end s c : forall t, Strings.TrimRight s c <> t +:+ String c "".
Proof.
  induction s as [|a r IH]; intros t.
  - simpl. destruct t; discriminate.
  - rewrite TrimRight_cons. destruct (Strings.TrimRight r c) as [|b r'] eqn:E.
    + destruct (Ascii.eqb_spec a c) as [->|Hne].
      * destruct t; discriminate.
      * destruct t as [|x t'].
        -- intros H. injection H as H. contradiction.
        -- rewrite append_cons. intros H. injection H as _ H.
           destruct t'; discriminate.
    + destruct t as [|x t'].
      * discriminate.
      * rewrite append_cons. intros H. injection H as _ H.
        exact (IH t' H).
Qed.

Lemma TrimRight_idem s c :
  Strings.TrimRight (Strings.TrimRight s c) c = Strings.TrimRight s c.
Proof.
  induction s as [|a r IH]; [reflexivity|].
  rewrite TrimRight_cons. destruct (Strings.TrimRight r c) as [|b r'] eqn:E.
  - destruct (Ascii.eqb_spec a c) as [->|Hne]; [reflexivity|].
    rewrite TrimRight_cons. simpl.
    destruct (Ascii.eqb_spec a c); [contradiction|reflexivity].
  - rewrite TrimRight_cons, IH. reflexivity.
Qed.

Lemma TrimRight_app s c :
  Strings.TrimRight (s +:+ String c "") c = Strings.TrimRight s c.
Proof.
  induction s as [|a r IH].
  - simpl. rewrite Ascii.eqb_refl. reflexivity.
  - rewrite append_cons, !TrimRight_cons, IH. reflexivity.
Qed.








(** *** [path.Clean] never leaves a trailing slash, except on the root *)

Lemma noDoubleSlash_cons x l :
  x <> Path.slash -> noDoubleSlash l -> noDoubleSlash (x :: l).
Proof. intros Hx Hl. simpl. split; [|exact Hl]. destruct l; [exact I|]. tauto. Qed.

Lemma noDoubleSlash_app chars l :
  Forall (fun c => c <> Path.slash) chars -> noDoubleSlash l ->
  noDoubleSlash (chars ++ l).
Proof.
  induction 1 as [|c chars Hc _ IH]; intros Hl; [exact Hl|].
  simpl app. apply noDoubleSlash_cons; auto.
Qed.

Lemma bufInv_intro rooted out dotdot :
  headOK rooted out -> noDoubleSlash out ->
  (dotdot <= List.length out)%nat ->
  headOK rooted (drop (List.length out - dotdot) out) ->
  bufInv rooted out dotdot.
Proof. intros. unfold bufInv. auto. Qed.

Lemma headOK_nil rooted : headOK rooted [].
Proof. intros t Ht. discriminate. Qed.

Lemma headOK_nonslash rooted x l : x <> Path.slash -> headOK rooted (x :: l).
Proof. intros Hx t Ht. injection Ht as Hx' _. contradiction. Qed.

Lemma backtrack_inv rooted dotdot : forall rest popped,
  noDoubleSlash (popped :: rest) ->
  (dotdot <= List.length rest)%nat ->
  headOK rooted (drop (List.length rest - dotdot) rest) ->
  bufInv rooted (Path.backtrack dotdot popped rest) dotdot.
Proof.
  induction rest as [|c rest' IH]; intros popped Hnd Hle Hpre.
  - simpl. apply bufInv_intro.
    + apply headOK_nil.
    + exact I.
    + exact Hle.
    + rewrite drop_nil. apply headOK_nil.
  - cbn [Path.backtrack].
    destruct ((dotdot <? List.length (c :: rest'))%nat
              && negb (Ascii.eqb popped Path.slash)) eqn:Hcond.
    + apply andb_true_iff in Hcond as [Hlt Hpop].
      apply Nat.ltb_lt in Hlt. simpl in Hlt.
      apply IH.
      * exact (proj2 Hnd).
      * lia.
      * simpl List.length in Hpre.
        replace (S (List.length rest') - dotdot)%nat
          with (S (List.length rest' - dotdot)) in Hpre by lia.
        exact Hpre.
    + apply andb_false_iff in Hcond.
      assert (Hhead : headOK rooted (c :: rest')).
      { destruct Hcond as [Hge|Hpop].
        - apply Nat.ltb_ge in Hge.
          replace (List.length (c :: rest') - dotdot)%nat with 0%nat in Hpre by lia.
          exact Hpre.
        - apply negb_false_iff in Hpop. apply Ascii.eqb_eq in Hpop. subst popped.
          intros t Ht. injection Ht as -> _.
          destruct Hnd as [Hnd _]. exfalso. apply Hnd. auto. }
      apply bufInv_intro.
      * exact Hhead.
      * exact (proj2 Hnd).
      * exact Hle.
      * exact Hpre.
Qed.

Lemma copyElem_spec r : forall out,
  exists chars,
    snd (Path.copyElem r out) = chars ++ out
    /\ Forall (fun c => c <> Path.slash) chars.
Proof.
  induction r as [|c r' IH]; intros out.
  - exists []. split; [reflexivity|constructor].
  - cbn [Path.copyElem]. destruct (Ascii.eqb_spec c Path.slash) as [->|Hne].
    + exists []. split; [reflexivity|constructor].
    + destruct (IH (c :: out)) as (chars & Heq & Hall).
      exists (chars ++ [c]). split.
      * rewrite Heq, <- app_assoc. reflexivity.
      * apply Forall_app. split; [exact Hall|]. constructor; [exact Hne|constructor].
Qed.

Lemma bufInv_extend rooted out dotdot pre :
  bufInv rooted out dotdot ->
  noDoubleSlash (pre ++ out) ->
  headOK rooted (pre ++ out) ->
  bufInv rooted (pre ++ out) dotdot.
Proof.
  intros (Hh & Hnd & Hle & Hpre) Hnd' Hh'.
  apply bufInv_intro.
  - exact Hh'.
  - exact Hnd'.
  - rewrite length_app. lia.
  - rewrite length_app.
    replace (List.length pre + List.length out - dotdot)%nat
      with (List.length pre + (List.length out - dotdot))%nat by lia.
    rewrite drop_app_add. exact Hpre.
Qed.

Lemma slash_ne_dot : Path.dot <> Path.slash.
Proof. discriminate. Qed.

Lemma cleanLoop_headOK : forall fuel rooted r out dotdot,
  bufInv rooted out dotdot ->
  headOK rooted (Path.cleanLoop fuel rooted r out dotdot).
Proof.
  induction fuel as [|fuel IH]; intros rooted r out dotdot Hinv.
  - exact (proj1 Hinv).
  - cbn [Path.cleanLoop]. destruct r as [|c r1]; [exact (proj1 Hinv)|].
    destruct (Ascii.eqb_spec c Path.slash) as [Hc|Hc]; [apply IH; exact Hinv|].
    destruct (Ascii.eqb c Path.dot && Path.startsElemEnd r1); [apply IH; exact Hinv|].
    destruct (Ascii.eqb c Path.dot && _).
    + (* the .. element *)
      destruct (Nat.ltb_spec dotdot (List.length out)) as [Hlt|Hge].
      * destruct out as [|popped rest]; [apply IH; exact Hinv|].
        apply IH. destruct Hinv as (Hh & Hnd & Hle & Hpre).
        apply backtrack_inv.
        -- exact Hnd.
        -- simpl in Hlt. lia.
        -- simpl List.length in Hpre.
           replace (S (List.length rest) - dotdot)%nat
             with (S (List.length rest - dotdot)) in Hpre by (simpl in Hlt; lia).
           exact Hpre.
      * destruct rooted; simpl negb; cbv iota; [apply IH; exact Hinv|].
        apply IH. destruct Hinv as (Hh & Hnd & Hle & Hpre).
        set (out1 := if (0 <? List.length out)%nat then Path.slash :: out else out).
        assert (Hnd1 : noDoubleSlash out1).
        { subst out1. destruct (0 <? List.length out)%nat; [|exact Hnd].
          simpl. split; [|exact Hnd].
          destruct out as [|b t]; [exact I|].
          intros [_ ->]. destruct (Hh t eq_refl) as [Hr _]. discriminate. }
        apply bufInv_intro.
        -- apply headOK_nonslash. exact slash_ne_dot.
        -- apply noDoubleSlash_cons; [exact slash_ne_dot|].
           apply noDoubleSlash_cons; [exact slash_ne_dot|]. exact Hnd1.
        -- lia.
        -- rewrite Nat.sub_diag. simpl drop.
           apply headOK_nonslash. exact slash_ne_dot.
    + (* a real path element *)
      set (sep := (rooted && negb (List.length out =? 1)%nat)
                  || (negb rooted && negb (List.length out =? 0)%nat)).
      set (out1 := if sep then Path.slash :: out else out).
      destruct (Path.copyElem (String c r1) out1) as [r' out2] eqn:Hcopy.
      apply IH.
      assert (Hout2 : exists chars, out2 = (chars ++ [c]) ++ out1
                                    /\ Forall (fun x => x <> Path.slash) (chars ++ [c])).
      { cbn [Path.copyElem] in Hcopy.
        destruct (Ascii.eqb_spec c Path.slash) as [|_]; [contradiction|].
        destruct (copyElem_spec r1 (c :: out1)) as (chars & Heq & Hall).
        rewrite Hcopy in Heq. simpl in Heq. exists chars. split.
        - rewrite Heq, <- app_assoc. reflexivity.
        - apply Forall_app. split; [exact Hall|]. constructor; [exact Hc|constructor]. }
      destruct Hout2 as (chars & -> & Hall).
      destruct Hinv as (Hh & Hnd & Hle & Hpre).
      assert (Hnd1 : noDoubleSlash out1).
      { subst out1. destruct sep eqn:Hsep; [|exact Hnd].
        simpl. split; [|exact Hnd].
        destruct out as [|b t]; [exact I|].
        intros [_ ->]. destruct (Hh t eq_refl) as [-> ->].
        subst sep. simpl in Hsep. discriminate. }
      assert (Hne : forall l, headOK rooted ((chars ++ [c]) ++ l)).
      { intros l. destruct chars as [|x chars'].
        - simpl. apply headOK_nonslash. exact Hc.
        - simpl. apply headOK_nonslash.
          apply Forall_cons in Hall as [Hx' _]. exact Hx'. }
      subst out1. destruct sep.
      * replace ((chars ++ [c]) ++ Path.slash :: out)
          with (((chars ++ [c]) ++ [Path.slash]) ++ out)
          by (rewrite <- !app_assoc; reflexivity).
        apply bufInv_extend.
        -- apply bufInv_intro; assumption.
        -- rewrite <- app_assoc. apply noDoubleSlash_app; assumption.
        -- rewrite <- app_assoc. apply Hne.
      * apply bufInv_extend.
        -- apply bufInv_intro; assumption.
        -- apply noDoubleSlash_app; assumption.
        -- apply Hne.
Qed.

Lemma string_of_list_ascii_snoc l a :
  string_of_list_ascii (l ++ [a]) = string_of_list_ascii l +:+ String a "".
Proof. induction l as [|x l IH]; [reflexivity|]. simpl. rewrite IH. reflexivity. Qed.

Lemma length_append_one t a :
  String.length (t +:+ String a "") = S (String.length t).
Proof. induction t as [|x t IH]; [reflexivity|]. rewrite append_cons. simpl. rewrite IH. reflexivity. Qed.

Lemma substring_last_one t a :
  String.substring (String.length t) 1 (t +:+ String a "") = String a "".
Proof. induction t as [|x t IH]; [reflexivity|]. rewrite append_cons. simpl. exact IH. Qed.

Lemma HasSuffix_snoc t a :
  Strings.HasSuffix (t +:+ String a "") "/" = true -> a = Path.slash.
Proof.
  unfold Strings.HasSuffix. rewrite length_append_one.
  change (String.length "/") with 1%nat.
  replace (S (String.length t) - 1)%nat with (String.length t) by lia.
  rewrite substring_last_one. simpl.
  destruct (Ascii.eqb_spec a "/"); [auto|discriminate].
Qed.

(** [path.Clean] returns a path that ends in a slash only if it is the
    root. *)
Lemma Clean_trailing_slash p :
  Strings.HasSuffix (Path.Clean p) "/" = true -> Path.Clean p = "/".
Proof.
  unfold Path.Clean. destruct p as [|c r]; [discriminate|].
  set (out := if Ascii.eqb c Path.slash
              then Path.cleanLoop (String.length (String c r)) true r [Path.slash] 1
              else Path.cleanLoop (S (String.length (String c r))) false (String c r) [] 0).
  assert (Hout : headOK (Ascii.eqb c Path.slash) out).
  { subst out. destruct (Ascii.eqb c Path.slash).
    - apply cleanLoop_headOK. apply bufInv_intro.
      + intros t Ht. injection Ht as <-. auto.
      + simpl. auto.
      + simpl. lia.
      + simpl. intros t Ht. injection Ht as <-. auto.
    - apply cleanLoop_headOK. apply bufInv_intro.
      + apply headOK_nil.
      + exact I.
      + simpl. lia.
      + apply headOK_nil. }
  cbv zeta. fold out.
  destruct out as [|a t]; [discriminate|].
  simpl rev. rewrite string_of_list_ascii_snoc. intros Hs.
  apply HasSuffix_snoc in Hs. subst a.
  destruct (Hout t eq_refl) as [_ ->]. reflexivity.
Qed.


(** *** The index while it is built *)







(** [FindOrCreate] looks a name up as it is given. When only the bare
    name [t] is registered, a request for [t/] does not find the node of
    [t]: it allocates a second node and points the bare key at it, so that
    the first node can no longer be reached through the map. *)
Lemma FindOrCreate_misses_the_bare_name fm h t p :
  Strings.TrimRight t "/" = t ->
  fm !! t = Some p -> (p < List.length h)%nat ->
  fm !! (t +:+ "/") = None ->
  FindOrCreate fm h (t +:+ "/")
  = (<[t := List.length h]> (<[t +:+ "/" := List.length h]> fm),
     h ++ [mkFileInfo (t +:+ "/") None [] ""], List.length h)
  /\ List.length h <> p.
Proof.
  intros Ht Hp Hlt Hmiss. split; [|lia].
  unfold FindOrCreate. cbv zeta. rewrite Hmiss.
  rewrite (TrimRight_app t "/"%char), Ht.
  destruct (decide (t = t +:+ "/")) as [E|_]; [|reflexivity].
  exfalso. exact (TrimRight_not_end t "/"%char t (eq_trans Ht E)).
Qed.

(** C8 fails on the code. The comment in [FindOrCreate] says that
    directories get two entries, with and without trailing slash, but with
    the bare name first [FindOrCreate] finds no key [a/], allocates a second
    node and redirects the key [a] to it. Both keys then reference node 2,
    while node 0, also named [a], stays a child of the root beside it. *)
Lemma clash_leaves_two_nodes :
  fst (buildIndex exClash) !! "a" = Some 2%nat
  /\ fst (buildIndex exClash) !! "a/" = Some 2%nat
  /\ name <$> snd (buildIndex exClash) = ["a"; "/"; "a/"]
  /\ nameOf (snd (buildIndex exClash)) 0 = "a"
  /\ nameOf (snd (buildIndex exClash)) 2 = "a"
  /\ fileInfos <$> snd (buildIndex exClash) !! 1%nat = Some [0; 2]%nat.
Proof. vm_compute. repeat split. Qed.

(** In the other order the same two names share one node, as the claim
    says: the outcome depends on the order of the entries. *)
Example slash_form_first_gives_one_node :
  fst (buildIndex (rev exClash)) !! "a" = Some 0%nat
  /\ fst (buildIndex (rev exClash)) !! "a/" = Some 0%nat
  /\ name <$> snd (buildIndex (rev exClash)) = ["a/"; "/"].
Proof. vm_compute. repeat split. Qed.

(** The same happens to a file that is also the directory of a later
    entry: the directory [a/] implied by [a/b] becomes a second node. *)
Example implied_directory_leaves_two_nodes :
  name <$> snd (buildIndex [exEntry "a" []; exEntry "a/b" []])
  = ["a"; "/"; "a/b"; "a/"]
  /\ fst (buildIndex [exEntry "a" []; exEntry "a/b" []]) !! "a" = Some 3%nat.
Proof. vm_compute. split; reflexivity. Qed.

(** A key with two trailing slashes takes the stripped key along to its
    own node. *)
Example double_slash_splits_keys :
  fst (buildIndex exDoubled) !! "a/" = Some 0%nat
  /\ fst (buildIndex exDoubled) !! "a" = Some 2%nat.
Proof. vm_compute. split; reflexivity. Qed.

(** *** Closing the file system *)

(** C7 fails on the code: [TestOpen] expects [Open] after
    [FileSystem.Close] to fail with the error text "filesystem closed",
    but the closed file system still opens every indexed path, and reports
    a missing path as not existing rather than as closed. *)
Theorem Open_after_Close_still_opens :
  fsOpen (fst (fsClose exFS)) "/lots/file-01"
    = inr (openReader 2 "/lots/file-01")
  /\ fsOpen (fst (fsClose exFS)) "/missing"
    = inl (PathError "Open" "/missing" ErrNotExist)
  /\ fsOpen (fst (fsClose exFS)) "/missing"
    <> inl (PathError "Open" "/missing" errFileSystemClosed).
Proof. vm_compute. repeat split. discriminate. Qed.

Lemma Readdir_restarts_after_EOF_witness :
  readdir (setReaddir None exLastPage) = None
  /\ Readdir exWorld (setReaddir None exLastPage) 2 =
       (if (Z.to_nat 2 <=? List.length [2; 4; 0; 6; 5]%nat)%nat
        then (setReaddir (Some (drop (Z.to_nat 2) [2; 4; 0; 6; 5]%nat))
                (setReaddir None exLastPage),
              Some (take (Z.to_nat 2) [2; 4; 0; 6; 5]%nat), None)
        else (setReaddir None (setReaddir None exLastPage),
              Some [2; 4; 0; 6; 5]%nat, Some EOF))
  /\ snd (fst (Readdir exWorld (setReaddir None exLastPage) 2))
     = snd (fst (Readdir exWorld
                   (openReader (rfileInfo exLastPage) (rname exLastPage)) 2))
  /\ ([2; 4; 0; 6; 5]%nat <> [] ->
      snd (fst (Readdir exWorld (setReaddir None exLastPage) 2)) <> Some []).
Proof.
  apply (Readdir_restarts_after_EOF exWorld exLastPage (setReaddir None exLastPage)
           2 2 (Some [5%nat]) [2; 4; 0; 6; 5]%nat).
  - lia.
  - vm_compute. reflexivity.
  - vm_compute. reflexivity.
  - lia.
Defined.

(** * Further properties of the code *)

(** ** Handles: seeking, materialisation, listing *)

Lemma tempName_nonempty seq : tempName seq <> "".
Proof. unfold tempName. discriminate. Qed.

(** [Seek] from the start on a handle that is not yet backed by a file:
    the entry is materialised (or its materialisation found again) and the
    cursor set to the offset asked for. *)
Lemma Seek_set_materialises w f node zf offset :
  closed f = false -> rfile f = None ->
  heap w !! rfileInfo f = Some node ->
  zipFile node = Some zf ->
  zipOpen zf = inr (Zip.content zf) ->
  (tempPath node = "" \/ disk w !! tempPath node = Some (Zip.content zf)) ->
  0 <= offset ->
  exists w2 p,
    Seek w f offset 0 =
      (w2, setFile (Some (mkOsFile p offset false))
             (setReader (streamClose <$> rreader f) f), offset, None)
    /\ disk w2 !! p = Some (Zip.content zf).
Proof.
  intros Hcl Hfile Hnode Hzf Hopen Htemp Hoff.
  unfold Seek. rewrite Hcl. cbv zeta.
  simpl rfile. rewrite Hfile. simpl rfileInfo.
  unfold openFile. rewrite Hnode.
  destruct (Z.ltb_spec offset 0) as [|_]; [lia|].
  destruct (decide (tempPath node = "")) as [Hnone|Hsome].
  - unfold createTempFile. rewrite Hzf, Hopen. simpl.
    unfold fileSeek. simpl. rewrite lookup_insert_eq. simpl.
    destruct (Z.ltb_spec offset 0) as [|_]; [lia|].
    eexists _, _. split; [reflexivity|]. simpl. apply lookup_insert_eq.
  - destruct Htemp as [Hnone|Hdisk]; [contradiction|].
    rewrite Hdisk. unfold fileSeek. simpl. rewrite Hdisk. simpl.
    destruct (Z.ltb_spec offset 0) as [|_]; [lia|].
    eexists _, _. split; [reflexivity|]. exact Hdisk.
Qed.

(** A descriptor on a file of the temporary directory, wherever its
    cursor stands, is repositioned by [Seek] from the start. *)
Lemma Seek_set_repositions w f file data offset :
  closed f = false -> rfile f = Some file ->
  fclosed file = false ->
  disk w !! fpath file = Some data ->
  0 <= offset ->
  Seek w f offset 0 =
    (w, setFile (Some (mkOsFile (fpath file) offset false))
          (setReader (streamClose <$> rreader f) f), offset, None).
Proof.
  intros Hcl Hfile Hopen Hdisk Hoff.
  unfold Seek. rewrite Hcl. cbv zeta. simpl rfile. rewrite Hfile.
  unfold fileSeek. rewrite Hopen, Hdisk. simpl.
  destruct (Z.ltb_spec offset 0) as [|_]; [lia|]. reflexivity.
Qed.

(** X1: seeking to an offset from the start and then reading to the end
    yields the content of the entry from that offset on (nothing, with
    io.EOF, when the offset lies at or beyond the end). This holds for
    every open handle: one that has not read yet, one that has been
    streaming, and one that is already backed by the temporary file, with
    its cursor anywhere. *)
Theorem seek_then_read_gives_suffix
    (w : World) (f : fileReader) (node : fileInfo) (zf : Zip.File)
    (offset : Z) (n fuel : nat) :
  closed f = false ->
  heap w !! rfileInfo f = Some node ->
  zipFile node = Some zf ->
  Zip.Method zf = Zip.Store \/ Zip.Method zf = Zip.Deflate ->
  match rfile f with
  | Some file =>
      fclosed file = false /\ disk w !! fpath file = Some (Zip.content zf)
  | None =>
      tempPath node = "" \/ disk w !! tempPath node = Some (Zip.content zf)
  end ->
  0 <= offset ->
  (0 < n)%nat ->
  (List.length (Zip.content zf) - Z.to_nat offset < fuel)%nat ->
  exists w2 f2 f3,
    Seek w f offset 0 = (w2, f2, offset, None)
    /\ readAll fuel w2 f2 n
       = (f3, drop (Z.to_nat offset) (Zip.content zf), Some EOF).
Proof.
  intros Hcl Hnode Hzf Hmeth Hback Hoff Hn Hfuel.
  destruct (rfile f) as [file|] eqn:Hfile.
  - destruct Hback as [Hopen Hdisk].
    pose proof (Seek_set_repositions w f file _ offset Hcl Hfile Hopen Hdisk Hoff)
      as Hseek.
    set (f2 := setFile (Some (mkOsFile (fpath file) offset false))
                 (setReader (streamClose <$> rreader f) f)) in *.
    destruct (readAll_file w n fuel f2 (fpath file) offset (Zip.content zf)
                Hn Hcl eq_refl Hdisk Hoff Hfuel) as (f3 & Hread & _ & _).
    exists w, f2, f3. split; [exact Hseek|exact Hread].
  - assert (Hzo : zipOpen zf = inr (Zip.content zf)).
    { unfold zipOpen. destruct Hmeth as [-> | ->]; reflexivity. }
    destruct (Seek_set_materialises w f node zf offset Hcl Hfile Hnode Hzf Hzo
                Hback Hoff) as (w2 & p & Hseek & Hdisk).
    set (f2 := setFile (Some (mkOsFile p offset false))
                 (setReader (streamClose <$> rreader f) f)) in *.
    destruct (readAll_file w2 n fuel f2 p offset (Zip.content zf) Hn Hcl eq_refl
                Hdisk Hoff Hfuel) as (f3 & Hread & _ & _).
    exists w2, f2, f3. split; [exact Hseek|exact Hread].
Qed.

Lemma seek_then_read_gives_suffix_witness :
  exists w2 f2 f3,
    Seek exMaterialised exAtEnd 3 0 = (w2, f2, 3, None)
    /\ readAll 6 w2 f2 2
       = (f3, drop (Z.to_nat 3)
                (Zip.content
                   (exEntry "readme.txt"
                      [Byte.x68; Byte.x65; Byte.x6c; Byte.x6c; Byte.x6f])),
          Some EOF).
Proof.
  apply (seek_then_read_gives_suffix exMaterialised exAtEnd
           (mkFileInfo "readme.txt"
              (Some (exEntry "readme.txt" [Byte.x68; Byte.x65; Byte.x6c; Byte.x6c; Byte.x6f]))
              [] (tempName 0))).
  - reflexivity.
  - vm_compute. reflexivity.
  - reflexivity.
  - left. reflexivity.
  - vm_compute. split; reflexivity.
  - lia.
  - lia.
  - simpl. lia.
Defined.

(** X2: the first materialisation of an entry records the path of the
    temporary file on the node; opening the file again for the same node
    creates nothing: the world is left as it is and the descriptor points
    at the recorded file, which holds the whole content. *)
Theorem openFile_memoizes
    (w : World) (p : nat) (node : fileInfo) (zf : Zip.File) (data : bytes) :
  heap w !! p = Some node ->
  tempPath node = "" ->
  zipFile node = Some zf ->
  zipOpen zf = inr data ->
  exists w1 path,
    openFile w p = (w1, inr (mkOsFile path 0 false))
    /\ path <> ""
    /\ disk w1 !! path = Some data
    /\ tempPath <$> heap w1 !! p = Some path
    /\ openFile w1 p = (w1, inr (mkOsFile path 0 false)).
Proof.
  intros Hnode Htemp Hzf Hopen.
  unfold openFile at 1. rewrite Hnode.
  destruct (decide (tempPath node = "")) as [_|]; [|contradiction].
  unfold createTempFile. rewrite Hzf, Hopen. simpl.
  eexists _, _. split; [reflexivity|].
  split; [apply tempName_nonempty|].
  split; [simpl; apply lookup_insert_eq|].
  split.
  - simpl. rewrite list_lookup_alter_eq, Hnode. reflexivity.
  - unfold openFile. simpl. rewrite list_lookup_alter_eq, Hnode. simpl.
    destruct (decide (tempName (tempSeq w) = "")) as [E|_];
      [exfalso; exact (tempName_nonempty _ E)|].
    rewrite lookup_insert_eq. reflexivity.
Qed.

Lemma openFile_memoizes_witness :
  exists w1 path,
    openFile exWorld 7 = (w1, inr (mkOsFile path 0 false))
    /\ path <> ""
    /\ disk w1 !! path
       = Some [Byte.x68; Byte.x65; Byte.x6c; Byte.x6c; Byte.x6f]
    /\ tempPath <$> heap w1 !! 7%nat = Some path
    /\ openFile w1 7 = (w1, inr (mkOsFile path 0 false)).
Proof.
  apply (openFile_memoizes exWorld 7
           (mkFileInfo "readme.txt"
              (Some (exEntry "readme.txt" [Byte.x68; Byte.x65; Byte.x6c; Byte.x6c; Byte.x6f]))
              [] "")
           (exEntry "readme.txt" [Byte.x68; Byte.x65; Byte.x6c; Byte.x6c; Byte.x6f])).
  - vm_compute. reflexivity.
  - reflexivity.
  - reflexivity.
  - reflexivity.
Defined.

(** X3: Readdir on a handle whose node is not a directory fails, for
    every count, with a path error that names the operation, the name the
    handle was opened by and the cause errNotDirectory; it returns no list
    and leaves the handle as it was. *)
Theorem Readdir_on_a_file_fails
    (w : World) (f : fileReader) (node : fileInfo) (count : Z) :
  heap w !! rfileInfo f = Some node ->
  fiIsDir node = false ->
  readdir f = None ->
  Readdir w f count
    = (f, None, Some (PathError "Readdir" (rname f) errNotDirectory)).
Proof.
  intros Hnode Hdir Hrd.
  assert (Hfi : fiReaddir (heap w) (rfileInfo f) = inl errNotDirectory).
  { unfold fiReaddir. rewrite Hnode. unfold fiMode.
    unfold fiIsDir in Hdir. destruct (zipFile node) as [zf|] eqn:Hzf; [|discriminate].
    unfold fiIsDir. rewrite Hzf, Hdir. reflexivity. }
  unfold Readdir. rewrite Hrd, Hfi. destruct (0 <? count); reflexivity.
Qed.

Lemma Readdir_on_a_file_fails_witness :
  Readdir exWorld exReadme 2
    = (exReadme, None, Some (PathError "Readdir" (rname exReadme) errNotDirectory)).
Proof.
  apply (Readdir_on_a_file_fails exWorld exReadme
           (mkFileInfo "readme.txt"
              (Some (exEntry "readme.txt" [Byte.x68; Byte.x65; Byte.x6c; Byte.x6c; Byte.x6f]))
              [] "")).
  - vm_compute. reflexivity.
  - reflexivity.
  - reflexivity.
Defined.

(** X4: for every node, the directory bit of Mode agrees with IsDir, the
    permission bits never include a write bit, and the mode is one of the
    two fixed values: 0555 with the directory bit, or 0444. *)
Theorem Mode_agrees_with_IsDir (fi : fileInfo) :
  modeIsDir (fiMode fi) = fiIsDir fi
  /\ Z.land (fiMode fi) 146 = 0
  /\ fiMode fi = (if fiIsDir fi then Z.lor 365 ModeDir else 292).
Proof.
  unfold fiMode, fiIsDir. destruct (zipFile fi) as [zf|].
  - destruct (zipModeIsDir zf); repeat split.
  - repeat split.
Qed.

(** ** The index: finding, creating and listing *)

(** X5: once a name has been found or created, finding it again returns
    the same node and changes nothing; when the name was new, the node was
    allocated at the end of the heap under that name, and the name stripped
    of its trailing slashes finds the same node; when the name was known,
    the first call changed nothing either. *)
Theorem FindOrCreate_is_idempotent
    (fm fm1 : fileInfoMap) (h h1 : list fileInfo) (nm : string) (p : nat) :
  FindOrCreate fm h nm = (fm1, h1, p) ->
  FindOrCreate fm1 h1 nm = (fm1, h1, p)
  /\ (fm !! nm = None ->
        p = List.length h
        /\ h1 = h ++ [mkFileInfo nm None [] ""]
        /\ FindOrCreate fm1 h1 (Strings.TrimRight nm "/") = (fm1, h1, p))
  /\ (is_Some (fm !! nm) -> fm1 = fm /\ h1 = h).
Proof.
  unfold FindOrCreate at 1. cbv zeta.
  destruct (fm !! nm) as [q|] eqn:Hlook.
  - intros H. injection H as <- <- <-.
    split; [unfold FindOrCreate; rewrite Hlook; reflexivity|].
    split; [discriminate|auto].
  - intros H. injection H as <- <- <-.
    assert (Hnm : forall fm0 : fileInfoMap,
              (if decide (Strings.TrimRight nm "/" = nm)
               then <[nm := List.length h]> fm0
               else <[Strings.TrimRight nm "/" := List.length h]>
                      (<[nm := List.length h]> fm0)) !! nm
              = Some (List.length h)).
    { intros fm0. destruct (decide (Strings.TrimRight nm "/" = nm)).
      - apply lookup_insert_eq.
      - rewrite lookup_insert_ne by assumption. apply lookup_insert_eq. }
    split; [unfold FindOrCreate; rewrite Hnm; reflexivity|].
    split.
    + intros _. split; [reflexivity|]. split; [reflexivity|].
      unfold FindOrCreate.
      destruct (decide (Strings.TrimRight nm "/" = nm)) as [E|E].
      * rewrite E, lookup_insert_eq. reflexivity.
      * rewrite lookup_insert_eq. reflexivity.
    + intros [q Hq]. discriminate.
Qed.

Lemma FindOrCreate_is_idempotent_witness :
  FindOrCreate (fst (buildIndex exTree)) (snd (buildIndex exTree)) "docs/"
    = (<["docs" := 8%nat]> (<["docs/" := 8%nat]> (fst (buildIndex exTree))),
       snd (buildIndex exTree) ++ [mkFileInfo "docs/" None [] ""], 8%nat)
  /\ FindOrCreate (<["docs" := 8%nat]> (<["docs/" := 8%nat]> (fst (buildIndex exTree))))
       (snd (buildIndex exTree) ++ [mkFileInfo "docs/" None [] ""]) "docs/"
     = (<["docs" := 8%nat]> (<["docs/" := 8%nat]> (fst (buildIndex exTree))),
        snd (buildIndex exTree) ++ [mkFileInfo "docs/" None [] ""], 8%nat).
Proof.
  assert (H : FindOrCreate (fst (buildIndex exTree)) (snd (buildIndex exTree)) "docs/"
              = (<["docs" := 8%nat]> (<["docs/" := 8%nat]> (fst (buildIndex exTree))),
                 snd (buildIndex exTree) ++ [mkFileInfo "docs/" None [] ""], 8%nat)).
  { vm_compute. reflexivity. }
  split; [exact H|].
  exact (proj1 (FindOrCreate_is_idempotent _ _ _ _ _ _ H)).
Defined.

Lemma heapGrows_refl h : heapGrows h h.
Proof. intros i node Hi. exists node. auto. Qed.

Lemma heapGrows_trans h1 h2 h3 :
  heapGrows h1 h2 -> heapGrows h2 h3 -> heapGrows h1 h3.
Proof.
  intros H12 H23 i node Hi.
  destruct (H12 i node Hi) as (n2 & Hi2 & Hn2 & Hc2).
  destruct (H23 i n2 Hi2) as (n3 & Hi3 & Hn3 & Hc3).
  exists n3. split; [exact Hi3|]. split; [congruence|auto].
Qed.

Lemma heapGrows_app h l : heapGrows h (h ++ l).
Proof.
  intros i node Hi. exists node. split; [|auto].
  apply lookup_app_l_Some. exact Hi.
Qed.

Lemma heapGrows_alter (f : fileInfo -> fileInfo) i h :
  (forall x, name (f x) = name x) ->
  (forall x c, c ∈ fileInfos x -> c ∈ fileInfos (f x)) ->
  heapGrows h (alter f i h).
Proof.
  intros Hname Hkids j node Hj. rewrite list_lookup_alter.
  destruct (decide (i = j)) as [->|].
  - rewrite Hj. simpl. exists (f node). auto.
  - exists node. auto.
Qed.

Lemma FindOrCreate_lookup fm h nm :
  fst (fst (FindOrCreate fm h nm)) !! nm = Some (snd (FindOrCreate fm h nm)).
Proof.
  unfold FindOrCreate. cbv zeta. destruct (fm !! nm) as [q|] eqn:Hlook; [exact Hlook|].
  simpl. destruct (decide (Strings.TrimRight nm "/" = nm)).
  - apply lookup_insert_eq.
  - rewrite lookup_insert_ne by assumption. apply lookup_insert_eq.
Qed.

(** A key that ends in a slash is never pointed elsewhere. *)
Lemma FindOrCreate_slash_key fm h nm t q :
  fm !! (t +:+ slashStr) = Some q ->
  fst (fst (FindOrCreate fm h nm)) !! (t +:+ slashStr) = Some q.
Proof.
  intros Hk. unfold FindOrCreate. cbv zeta.
  destruct (fm !! nm) as [q'|] eqn:Hlook; [exact Hk|].
  simpl. assert (Hne : nm <> t +:+ slashStr) by congruence.
  destruct (decide (Strings.TrimRight nm "/" = nm)).
  - rewrite lookup_insert_ne by exact Hne. exact Hk.
  - rewrite lookup_insert_ne by (apply TrimRight_not_end).
    rewrite lookup_insert_ne by exact Hne. exact Hk.
Qed.

Lemma FindOrCreate_heapGrows fm h nm :
  heapGrows h (snd (fst (FindOrCreate fm h nm))).
Proof.
  unfold FindOrCreate. cbv zeta. destruct (fm !! nm); simpl.
  - apply heapGrows_refl.
  - apply heapGrows_app.
Qed.

Lemma FindOrCreate_keyInv fm h nm :
  keyInv fm h ->
  keyInv (fst (fst (FindOrCreate fm h nm))) (snd (fst (FindOrCreate fm h nm))).
Proof.
  intros Hinv. unfold FindOrCreate. cbv zeta.
  destruct (fm !! nm) as [q|] eqn:Hlook; [exact Hinv|]. simpl.
  assert (Hold : forall k p, fm !! k = Some p ->
            exists node, (h ++ [mkFileInfo nm None [] ""]) !! p = Some node
              /\ Strings.TrimRight (name node) "/" = Strings.TrimRight k "/").
  { intros k p Hk. destruct (Hinv k p Hk) as (node & Hp & Hn).
    exists node. split; [apply lookup_app_l_Some; exact Hp|exact Hn]. }
  assert (Hnew : (h ++ [mkFileInfo nm None [] ""]) !! List.length h
                 = Some (mkFileInfo nm None [] "")).
  { rewrite lookup_app_r by lia. rewrite Nat.sub_diag. reflexivity. }
  intros k p Hk.
  destruct (decide (Strings.TrimRight nm "/" = nm)) as [Hfix|Hstrip].
  - destruct (decide (nm = k)) as [<-|Hne].
    + rewrite lookup_insert_eq in Hk. injection Hk as <-.
      eexists. split; [exact Hnew|reflexivity].
    + rewrite lookup_insert_ne in Hk by exact Hne. apply Hold. exact Hk.
  - destruct (decide (Strings.TrimRight nm "/" = k)) as [<-|Hne1].
    + rewrite lookup_insert_eq in Hk. injection Hk as <-.
      eexists. split; [exact Hnew|]. simpl. symmetry. apply TrimRight_idem.
    + rewrite lookup_insert_ne in Hk by exact Hne1.
      destruct (decide (nm = k)) as [<-|Hne2].
      * rewrite lookup_insert_eq in Hk. injection Hk as <-.
        eexists. split; [exact Hnew|reflexivity].
      * rewrite lookup_insert_ne in Hk by exact Hne2. apply Hold. exact Hk.
Qed.

Lemma keyInv_heapGrows fm h h' : keyInv fm h -> heapGrows h h' -> keyInv fm h'.
Proof.
  intros Hinv Hg k p Hk. destruct (Hinv k p Hk) as (node & Hp & Hn).
  destruct (Hg p node Hp) as (node' & Hp' & Hn' & _).
  exists node'. split; [exact Hp'|]. rewrite Hn'. exact Hn.
Qed.

Lemma parentName_ends_slash nm : exists t, parentName nm = t +:+ slashStr.
Proof.
  unfold parentName. cbv zeta.
  destruct (decide (Path.Dir (Strings.TrimRight nm "/") = ".")); [exists ""; reflexivity|].
  destruct (Strings.HasSuffix (Path.Dir (Strings.TrimRight nm "/")) "/") eqn:Hs; simpl.
  - unfold Path.Dir in *. rewrite (Clean_trailing_slash _ Hs). exists "". reflexivity.
  - eexists. reflexivity.
Qed.

Lemma setZipFile_grows zf h i : heapGrows h (alter (setZipFile zf) i h).
Proof. apply heapGrows_alter; [reflexivity|auto]. Qed.

Lemma appendChild_grows c h i : heapGrows h (alter (appendChild c) i h).
Proof.
  apply heapGrows_alter; [reflexivity|].
  intros x c' Hc'. simpl. apply elem_of_app. left. exact Hc'.
Qed.

Lemma listedInParent_transport fm fm' h h' nm :
  listedInParent fm h nm ->
  heapGrows h h' ->
  (forall t q, fm !! (t +:+ slashStr) = Some q -> fm' !! (t +:+ slashStr) = Some q) ->
  listedInParent fm' h' nm.
Proof.
  intros (d & dnode & c & cnode & Hd & Hdn & Hc & Hcn & Hname) Hg Hkeys.
  destruct (parentName_ends_slash nm) as [t Ht].
  destruct (Hg d dnode Hdn) as (dnode' & Hdn' & _ & Hkids).
  destruct (Hg c cnode Hcn) as (cnode' & Hcn' & Hn' & _).
  exists d, dnode', c, cnode'.
  split; [rewrite Ht in *; apply Hkeys; exact Hd|].
  split; [exact Hdn'|]. split; [apply Hkids; exact Hc|].
  split; [exact Hcn'|]. rewrite Hn'. exact Hname.
Qed.

Lemma addEntry_step st zf :
  keyInv (fst st) (snd st) ->
  keyInv (fst (addEntry st zf)) (snd (addEntry st zf))
  /\ heapGrows (snd st) (snd (addEntry st zf))
  /\ (forall t q, fst st !! (t +:+ slashStr) = Some q ->
                  fst (addEntry st zf) !! (t +:+ slashStr) = Some q)
  /\ listedInParent (fst (addEntry st zf)) (snd (addEntry st zf)) (Zip.Name zf).
Proof.
  destruct st as [fm h]. simpl. intros Hinv. unfold addEntry.
  pose proof (FindOrCreate_keyInv fm h (Zip.Name zf) Hinv) as Hk1.
  pose proof (FindOrCreate_lookup fm h (Zip.Name zf)) as Hl1.
  pose proof (FindOrCreate_heapGrows fm h (Zip.Name zf)) as Hg1.
  pose proof (fun t q => FindOrCreate_slash_key fm h (Zip.Name zf) t q) as Hs1.
  destruct (FindOrCreate fm h (Zip.Name zf)) as [[fm1 h1] fi].
  simpl in Hk1, Hl1, Hg1, Hs1.
  set (h2 := alter (setZipFile zf) fi h1).
  assert (Hg2 : heapGrows h1 h2) by apply setZipFile_grows.
  assert (Hk2 : keyInv fm1 h2) by (eapply keyInv_heapGrows; eassumption).
  unfold FindOrCreateParent.
  pose proof (FindOrCreate_keyInv fm1 h2 (parentName (Zip.Name zf)) Hk2) as Hk3.
  pose proof (FindOrCreate_lookup fm1 h2 (parentName (Zip.Name zf))) as Hl3.
  pose proof (FindOrCreate_heapGrows fm1 h2 (parentName (Zip.Name zf))) as Hg3.
  pose proof (fun t q => FindOrCreate_slash_key fm1 h2 (parentName (Zip.Name zf)) t q)
    as Hs3.
  destruct (FindOrCreate fm1 h2 (parentName (Zip.Name zf))) as [[fm2 h3] d].
  simpl in Hk3, Hl3, Hg3, Hs3. simpl.
  set (h4 := alter (appendChild fi) d h3).
  assert (Hg4 : heapGrows h3 h4) by apply appendChild_grows.
  split; [eapply keyInv_heapGrows; eassumption|].
  split.
  { eapply heapGrows_trans; [exact Hg1|].
    eapply heapGrows_trans; [exact Hg2|].
    eapply heapGrows_trans; [exact Hg3|exact Hg4]. }
  split; [intros t q Hq; apply Hs3, Hs1; exact Hq|].
  (* the entry's node, and its parent's *)
  destruct (Hk1 _ _ Hl1) as (n1 & Hn1 & Hname1).
  destruct (Hg2 fi n1 Hn1) as (n2 & Hn2 & Hname2 & _).
  destruct (Hg3 fi n2 Hn2) as (n3 & Hn3 & Hname3 & _).
  destruct (Hg4 fi n3 Hn3) as (n4 & Hn4 & Hname4 & _).
  destruct (Hk3 _ _ Hl3) as (dn & Hdn & _).
  exists d, (appendChild fi dn), fi, n4.
  split; [exact Hl3|]. split.
  { subst h4. rewrite list_lookup_alter_eq, Hdn. reflexivity. }
  split; [simpl; apply elem_of_app; right; apply list_elem_of_here|].
  split; [exact Hn4|]. congruence.
Qed.

Lemma foldl_addEntry_listed entries : forall st,
  keyInv (fst st) (snd st) ->
  keyInv (fst (foldl addEntry st entries)) (snd (foldl addEntry st entries))
  /\ heapGrows (snd st) (snd (foldl addEntry st entries))
  /\ (forall t q, fst st !! (t +:+ slashStr) = Some q ->
                  fst (foldl addEntry st entries) !! (t +:+ slashStr) = Some q)
  /\ (forall zf, zf ∈ entries ->
        listedInParent (fst (foldl addEntry st entries))
          (snd (foldl addEntry st entries)) (Zip.Name zf)).
Proof.
  induction entries as [|e entries IH]; intros st Hinv.
  - simpl. split; [exact Hinv|]. split; [apply heapGrows_refl|].
    split; [auto|]. intros zf Hzf. apply elem_of_nil in Hzf. contradiction.
  - simpl. destruct (addEntry_step st e Hinv) as (Hk & Hg & Hs & Hl).
    destruct (IH (addEntry st e) Hk) as (Hk' & Hg' & Hs' & Hl').
    split; [exact Hk'|]. split; [eapply heapGrows_trans; eassumption|].
    split; [intros t q Hq; apply Hs', Hs; exact Hq|].
    intros zf Hzf. apply elem_of_cons in Hzf as [->|Hzf].
    + eapply listedInParent_transport; [exact Hl|exact Hg'|exact Hs'].
    + apply Hl'. exact Hzf.
Qed.

Lemma sortNode_grows k p h : heapGrows h (sortNode k p h).
Proof.
  unfold sortNode. destruct (h !! p) as [fi|] eqn:Hp; [|apply heapGrows_refl].
  destruct (1 <? List.length (fileInfos fi))%nat; [|apply heapGrows_refl].
  intros j node Hj. rewrite list_lookup_alter.
  destruct (decide (p = j)) as [->|]; [|exists node; auto].
  rewrite Hj. simpl. eexists. split; [reflexivity|]. split; [reflexivity|].
  simpl. intros c Hc. rewrite Hp in Hj. injection Hj as ->.
  rewrite sortSort_permutation. exact Hc.
Qed.

Lemma sort_phase_grows (fm : fileInfoMap) (h : list fileInfo) :
  heapGrows h (map_fold sortNode h fm).
Proof.
  apply (map_fold_weak_ind (fun r (_ : fileInfoMap) => heapGrows h r)).
  - apply heapGrows_refl.
  - intros k p mm r _ IH. eapply heapGrows_trans; [exact IH|apply sortNode_grows].
Qed.

(** X6: every entry of the archive is listed in its parent directory once
    the index is built: the node registered under the parent's key has,
    among its children, a node that is named like the entry (up to trailing
    slashes). Later entries and the final sort never take a child away. *)
Theorem every_entry_is_listed_in_its_parent
    (entries : list Zip.File) (fm : fileInfoMap) (h : list fileInfo)
    (zf : Zip.File) :
  buildIndex entries = (fm, h) ->
  zf ∈ entries ->
  listedInParent fm h (Zip.Name zf).
Proof.
  intros Hbuild Hzf. unfold buildIndex in Hbuild.
  destruct (foldl_addEntry_listed entries (∅, [])) as (_ & _ & _ & Hl).
  { intros k p Hk. simpl in Hk. rewrite lookup_empty in Hk. discriminate. }
  specialize (Hl zf Hzf).
  destruct (foldl addEntry (∅, []) entries) as [fm0 h0].
  injection Hbuild as <- <-. simpl in Hl.
  eapply listedInParent_transport; [exact Hl|apply sort_phase_grows|auto].
Qed.

Lemma every_entry_is_listed_in_its_parent_witness :
  listedInParent (fst (buildIndex exTree)) (snd (buildIndex exTree))
    (Zip.Name (exEntry "lots/file-02" [Byte.x32; Byte.x32])).
Proof.
  apply (every_entry_is_listed_in_its_parent exTree).
  - destruct (buildIndex exTree). reflexivity.
  - unfold exTree. do 3 apply list_elem_of_further. apply list_elem_of_here.
Defined.

(** *** Which entry a name opens *)


















(** ** The handler's map *)

Lemma handler_fold_sound entries : forall (acc : gmap string Zip.File) k f,
  foldl (fun a e => <["/" +:+ Zip.Name e := e]> a) acc entries !! k = Some f ->
  (f ∈ entries /\ k = "/" +:+ Zip.Name f) \/ acc !! k = Some f.
Proof.
  induction entries as [|e entries IH]; intros acc k f Hk; [right; exact Hk|].
  simpl in Hk. destruct (IH _ _ _ Hk) as [[Hin Hkey]|Hacc].
  - left. split; [apply list_elem_of_further; exact Hin|exact Hkey].
  - destruct (decide ("/" +:+ Zip.Name e = k)) as [<-|Hne].
    + rewrite lookup_insert_eq in Hacc. injection Hacc as <-.
      left. split; [apply list_elem_of_here|reflexivity].
    + rewrite lookup_insert_ne in Hacc by exact Hne. right. exact Hacc.
Qed.

Lemma handler_fold_keeps entries : forall (acc : gmap string Zip.File) nm,
  (exists f, acc !! ("/" +:+ nm) = Some f /\ Zip.Name f = nm) ->
  exists f, foldl (fun a e => <["/" +:+ Zip.Name e := e]> a) acc entries
              !! ("/" +:+ nm) = Some f /\ Zip.Name f = nm.
Proof.
  induction entries as [|e entries IH]; intros acc nm Hacc; [exact Hacc|].
  simpl. apply IH. destruct Hacc as (f & Hf & Hn).
  destruct (decide ("/" +:+ Zip.Name e = "/" +:+ nm)) as [E|Hne].
  - exists e. split; [rewrite E; apply lookup_insert_eq|].
    apply (String.app_inj "/") in E. exact E.
  - exists f. split; [|exact Hn]. rewrite lookup_insert_ne by exact Hne. exact Hf.
Qed.

(** X8: the handler's map holds the entries of the archive and nothing
    else: whatever a key leads to is an entry of the archive, and the key
    is that entry's name behind a slash; conversely every entry's name
    behind a slash is a key, leading to an entry of exactly that name. The
    handler reads from the archive it was built over. *)
Theorem handler_map_is_the_archive (raw : bytes) (entries : list Zip.File) :
  hReaderAt (handlerOver raw entries) = raw
  /\ (forall k f, m (handlerOver raw entries) !! k = Some f ->
        f ∈ entries /\ k = "/" +:+ Zip.Name f)
  /\ (forall f, f ∈ entries ->
        exists f', m (handlerOver raw entries) !! ("/" +:+ Zip.Name f) = Some f'
                   /\ Zip.Name f' = Zip.Name f).
Proof.
  split; [reflexivity|]. split.
  - intros k f Hk. unfold handlerOver in Hk. simpl in Hk.
    destruct (handler_fold_sound entries ∅ k f Hk) as [H|H]; [exact H|].
    rewrite lookup_empty in H. discriminate.
  - unfold handlerOver. simpl. generalize (∅ : gmap string Zip.File).
    induction entries as [|e entries IH]; intros acc f Hf.
    + apply elem_of_nil in Hf. contradiction.
    + simpl. apply elem_of_cons in Hf as [->|Hf].
      * apply handler_fold_keeps. exists e. split; [apply lookup_insert_eq|reflexivity].
      * apply IH. exact Hf.
Qed.

(** ** The entity tag identifies CRC and size *)

Lemma append_one_inj c : forall a b,
  a +:+ String c "" = b +:+ String c "" -> a = b.
Proof.
  induction a as [|x a IH]; intros [|y b] H.
  - reflexivity.
  - rewrite append_cons in H. injection H as _ H. destruct b; discriminate.
  - rewrite append_cons in H. injection H as _ H. destruct a; discriminate.
  - rewrite !append_cons in H. injection H as -> H. f_equal. apply IH. exact H.
Qed.

Lemma quoted_inj a b : quoted a = quoted b -> a = b.
Proof.
  unfold quoted, dquote. intros H.
  apply (String.app_inj (String (ascii_of_nat 34) "")) in H.
  exact (append_one_inj _ _ _ H).
Qed.

Lemma land_low_high a b :
  0 <= a < 2 ^ 32 -> 0 <= b -> Z.land a (b * 2 ^ 32) = 0.
Proof.
  intros Ha Hb. apply Z.bits_inj'. intros n Hn.
  rewrite Z.land_spec, Z.bits_0.
  destruct (Z.lt_ge_cases n 32) as [Hlt|Hge].
  - rewrite (Z.mul_pow2_bits_low b 32 n) by lia. apply andb_false_r.
  - assert (Hbit : Z.testbit a n = false).
    { destruct (Z.eq_dec a 0) as [->|Hne]; [apply Z.bits_0|].
      apply Z.bits_above_log2; [lia|].
      assert (Z.log2 a < 32) by (apply Z.log2_lt_pow2; lia). lia. }
    rewrite Hbit. reflexivity.
Qed.

Lemma lxor_low_high a b :
  0 <= a < 2 ^ 32 -> 0 <= b -> Z.lxor a (b * 2 ^ 32) = a + b * 2 ^ 32.
Proof.
  intros Ha Hb. symmetry. apply Z.add_nocarry_lxor. apply land_low_high; assumption.
Qed.

(** X9: two entries get the same entity tag exactly when they agree in
    their CRC32 and in the low 32 bits of their compressed size; nothing
    else of an entry enters the tag. *)
Theorem calcEtag_identifies_crc_and_size (f g : Zip.File) :
  Zip.wf_sizes f -> Zip.wf_sizes g ->
  calcEtag f = calcEtag g
  <-> Zip.CRC32 f = Zip.CRC32 g
      /\ Zip.CompressedSize64 f mod 2 ^ 32 = Zip.CompressedSize64 g mod 2 ^ 32.
Proof.
  intros Hf Hg.
  destruct (etagValue_spec f Hf) as [Hvf Hrf].
  destruct (etagValue_spec g Hg) as [Hvg Hrg].
  assert (Hsf : 0 <= Zip.CompressedSize64 f mod 2 ^ 32 < 2 ^ 32)
    by (apply Z.mod_pos_bound; lia).
  assert (Hsg : 0 <= Zip.CompressedSize64 g mod 2 ^ 32 < 2 ^ 32)
    by (apply Z.mod_pos_bound; lia).
  destruct Hf as [Hcf _]. destruct Hg as [Hcg _].
  unfold GoInt.is_uint32 in Hcf, Hcg.
  rewrite lxor_low_high in Hvf by lia. rewrite lxor_low_high in Hvg by lia.
  split.
  - intros He. change (calcEtag f) with (quoted (Fmt.fmt_x (etagValue f))) in He.
    change (calcEtag g) with (quoted (Fmt.fmt_x (etagValue g))) in He.
    apply quoted_inj in He.
    assert (Hv : etagValue f = etagValue g).
    { pose proof (proj1 (fmt_x_spec _ Hrf)) as H1.
      pose proof (proj1 (fmt_x_spec _ Hrg)) as H2.
      rewrite He in H1. congruence. }
    rewrite Hvf, Hvg in Hv. lia.
  - intros [Hc Hs].
    change (calcEtag f) with (quoted (Fmt.fmt_x (etagValue f))).
    change (calcEtag g) with (quoted (Fmt.fmt_x (etagValue g))).
    rewrite Hvf, Hvg, Hc, Hs. reflexivity.
Qed.

Lemma calcEtag_identifies_crc_and_size_witness :
  calcEtag circlePng = calcEtag exRandomDat
  <-> Zip.CRC32 circlePng = Zip.CRC32 exRandomDat
      /\ Zip.CompressedSize64 circlePng mod 2 ^ 32
         = Zip.CompressedSize64 exRandomDat mod 2 ^ 32.
Proof.
  apply (calcEtag_identifies_crc_and_size circlePng exRandomDat).
  - unfold Zip.wf_sizes, GoInt.is_uint32, GoInt.is_uint64. simpl. lia.
  - unfold Zip.wf_sizes, GoInt.is_uint32, GoInt.is_uint64. simpl. lia.
Defined.

(** ** The handler: conditional requests and strategies *)

Section HandlerMore.

Variable mime : string -> string.
Variable parseTime : string -> option Z.
Variable serveContent :
  ResponseWriter -> Request -> string -> Z -> bytes -> ResponseWriter.

Lemma hGet_hDel_eq (h : Header) k : hGet (hDel h k) k = "".
Proof. unfold hGet, hDel. rewrite lookup_delete_eq. reflexivity. Qed.

Lemma hGet_hDel_ne (h : Header) k k' : k' <> k -> hGet (hDel h k') k = hGet h k.
Proof. intros H. unfold hGet, hDel. rewrite lookup_delete_ne by exact H. reflexivity. Qed.

Lemma normalize_withoutHeader k r :
  normalizeRequest (withoutHeader k r) = withoutHeader k (normalizeRequest r).
Proof. unfold normalizeRequest, withoutHeader. simpl. destruct (negb _); reflexivity. Qed.

Lemma requestKey_withoutHeader k r : requestKey (withoutHeader k r) = requestKey r.
Proof.
  unfold requestKey. rewrite normalize_withoutHeader.
  unfold normalizeRequest, withoutHeader. simpl. destruct (negb _); reflexivity.
Qed.

Lemma serveIdentity_method w r r' f :
  reqMethod r = reqMethod r' ->
  serveIdentity mime w r f = serveIdentity mime w r' f.
Proof. intros H. unfold serveIdentity. rewrite H. reflexivity. Qed.

Lemma serveDeflate_request pool0 w r r' f src :
  reqMethod r = reqMethod r' ->
  hGet (reqHeader r) "Accept-Encoding" = hGet (reqHeader r') "Accept-Encoding" ->
  serveDeflate mime pool0 w r f src = serveDeflate mime pool0 w r' f src.
Proof.
  intros Hm Ha. unfold serveDeflate. rewrite Ha, Hm.
  rewrite (serveIdentity_method w r r' f Hm). reflexivity.
Qed.

Lemma timeMismatch_false ir modtime :
  timeMismatch parseTime ir modtime ->
  (if negb (timeIsZero modtime)
   then match parseTime ir with
        | Some t => t =? modtime
        | None => false
        end
   else false) = false.
Proof.
  intros [Hz|Hp]; [rewrite Hz; reflexivity|].
  destruct (negb (timeIsZero modtime)); [|reflexivity].
  destruct (parseTime ir) as [t|]; [|reflexivity].
  apply Z.eqb_neq. congruence.
Qed.

(** With a stale [If-Range], [checkETag] gives the answer it gives to the
    same request without [Range], and the effective range is empty. *)
Lemma checkETag_stale w r modtime :
  String.eqb (hGet (reqHeader r) "If-Range") "" = false ->
  String.eqb (hGet (reqHeader r) "If-Range") (hGet (header w) "Etag") = false ->
  timeMismatch parseTime (hGet (reqHeader r) "If-Range") modtime ->
  exists w2 done,
    checkETag parseTime w r modtime = (w2, "", done)
    /\ checkETag parseTime w (withoutHeader "Range" r) modtime = (w2, "", done).
Proof.
  intros H1 H2 Ht. unfold checkETag. cbv zeta. simpl reqHeader. simpl reqMethod.
  rewrite hGet_hDel_eq. rewrite !(hGet_hDel_ne _ _ "Range") by discriminate.
  rewrite H1, H2, (timeMismatch_false _ _ Ht). simpl negb. simpl andb. cbv iota.
  repeat match goal with |- context [if ?b then _ else _] => destruct b end;
    eexists _, _; split; reflexivity.
Qed.

(** X10: a Range accompanied by an If-Range that is neither the current
    entity tag nor the modification date is ignored: the handler answers
    exactly as it answers the same request without the Range header. *)
Theorem stale_If_Range_drops_the_Range h sv w r f :
  m h !! requestKey r = Some f ->
  String.eqb (hGet (reqHeader r) "If-Range") "" = false ->
  String.eqb (hGet (reqHeader r) "If-Range") (calcEtag f) = false ->
  timeMismatch parseTime (hGet (reqHeader r) "If-Range") (Zip.Modified f) ->
  ServeHTTP mime parseTime serveContent h sv w r
  = ServeHTTP mime parseTime serveContent h sv w (withoutHeader "Range" r).
Proof.
  intros Hf H1 H2 Ht.
  rewrite <- (normalize_header r) in H1, H2, Ht.
  unfold ServeHTTP. cbv zeta.
  rewrite requestKey_withoutHeader, Hf, normalize_withoutHeader.
  set (r' := normalizeRequest r) in *.
  set (w1 := withHeader (hSet (header w) "Etag" (calcEtag f)) w).
  destruct (checkETag_stale w1 r' (Zip.Modified f) H1) as (w2 & done & E1 & E2);
    [simpl; rewrite hGet_hSet_eq; exact H2|exact Ht|].
  rewrite E1, E2. destruct done; [reflexivity|].
  simpl negb. cbv iota.
  rewrite (serveIdentity_method w2 r' (withoutHeader "Range" r') f eq_refl).
  rewrite (serveDeflate_request (pool sv) w2 r' (withoutHeader "Range" r') f
             (hReaderAt h) eq_refl)
    by (simpl; rewrite hGet_hDel_ne by discriminate; reflexivity).
  reflexivity.
Qed.

(** When [If-None-Match] settles nothing and the [If-Range] header, if
    any, names the current entity by its tag or by its date, [checkETag]
    leaves the response alone and the effective range is the [Range]
    header. *)
Lemma checkETag_stands w r modtime :
  notSettled r (hGet (header w) "Etag") ->
  rangeStands parseTime (hGet (reqHeader r) "If-Range") (hGet (header w) "Etag")
    modtime ->
  checkETag parseTime w r modtime = (w, hGet (reqHeader r) "Range", false).
Proof.
  intros Hinm Hir. unfold checkETag. cbv zeta.
  set (ir := hGet (reqHeader r) "If-Range") in *.
  set (etag := hGet (header w) "Etag") in *.
  set (timeMatches := if negb (timeIsZero modtime)
                      then match parseTime ir with
                           | Some t => t =? modtime
                           | None => false
                           end
                      else false).
  assert (Hrange : (if negb (String.eqb ir "") && negb (String.eqb ir etag)
                    then if negb timeMatches then ""
                         else hGet (reqHeader r) "Range"
                    else hGet (reqHeader r) "Range")
                   = hGet (reqHeader r) "Range").
  { destruct Hir as [E|[E|[Hz Hp]]].
    - rewrite E. reflexivity.
    - rewrite E, String.eqb_refl, andb_false_r. reflexivity.
    - assert (Ht : timeMatches = true).
      { subst timeMatches. rewrite Hz, Hp. simpl. apply Z.eqb_refl. }
      rewrite Ht. simpl. destruct (_ && _); reflexivity. }
  rewrite Hrange.
  destruct (negb (String.eqb (hGet (reqHeader r) "If-None-Match") ""));
    [|reflexivity].
  destruct (String.eqb etag ""); [reflexivity|].
  destruct Hinm as [[Hne Hstar]|[Hget Hhead]].
  - rewrite Hne, Hstar. simpl orb. cbv iota. clear Hrange.
    destruct (negb (String.eqb (reqMethod r) "GET")
              && negb (String.eqb (reqMethod r) "HEAD")); reflexivity.
  - apply String.eqb_neq in Hget. apply String.eqb_neq in Hhead.
    rewrite Hget, Hhead. reflexivity.
Qed.

(** X11: a Range request that is not invalidated by If-Range (there is
    none, or it is the current entity tag, or it is the date of the
    entry's modification time) and not settled by If-None-Match is handed
    to the range-aware content server together with the entity tag already
    set, the entry's name, its modification time and its whole content;
    the temporary file made for it is gone afterwards (the disk is as
    before), and the node's memoized path is not touched. *)
Theorem Range_request_is_delegated_and_cleaned_up h sv w r f :
  m h !! requestKey r = Some f ->
  String.eqb (hGet (reqHeader r) "Range") "" = false ->
  notSettled r (calcEtag f) ->
  rangeStands parseTime (hGet (reqHeader r) "If-Range") (calcEtag f)
    (Zip.Modified f) ->
  Zip.Method f = Zip.Store \/ Zip.Method f = Zip.Deflate ->
  disk (world sv) !! tempName (tempSeq (world sv)) = None ->
  ServeHTTP mime parseTime serveContent h sv w r
  = (mkServer (mkWorld (heap (world sv)) (disk (world sv)) (S (tempSeq (world sv))))
       (pool sv),
     serveContent (withHeader (hSet (header w) "Etag" (calcEtag f)) w)
       (normalizeRequest r) (Zip.Name f) (Zip.Modified f) (Zip.content f)).
Proof.
  intros Hf Hrange Hinm Hir Hmeth Hfree.
  assert (Hinm' : notSettled (normalizeRequest r) (calcEtag f)).
  { unfold notSettled in *. rewrite normalize_header, normalize_method. exact Hinm. }
  rewrite <- (normalize_header r) in Hrange, Hir.
  unfold ServeHTTP. cbv zeta. rewrite Hf.
  set (r' := normalizeRequest r) in *.
  rewrite checkETag_stands;
    [| simpl; rewrite hGet_hSet_eq; exact Hinm'
     | simpl; rewrite hGet_hSet_eq; exact Hir].
  cbv iota. rewrite Hrange. simpl negb. cbv iota.
  unfold serveStandard, createTempFile.
  assert (Hopen : zipOpen f = inr (Zip.content f)).
  { unfold zipOpen. destruct Hmeth as [-> | ->]; reflexivity. }
  rewrite Hopen. simpl. rewrite lookup_insert_eq. simpl.
  rewrite delete_insert_id by exact Hfree. reflexivity.
Qed.

End HandlerMore.

Section HandlerStrategies.

Variable mime : string -> string.
Variable parseTime : string -> option Z.
Variable serveContent :
  ResponseWriter -> Request -> string -> Z -> bytes -> ResponseWriter.

Lemma Server_eta sv : mkServer (world sv) (pool sv) = sv.
Proof. destruct sv. reflexivity. Qed.

(** X12: a HEAD request for a stored or deflated entry (no Range, no
    matching If-None-Match) gets the headers of the strategy that a GET
    would use and nothing else: no body byte is written, the status is left
    alone, no buffer is taken from the pool; Content-Length is the
    compressed size with Content-Encoding deflate when the stored bytes
    would be passed through, the uncompressed size with no Content-Encoding
    otherwise. *)
Theorem HEAD_sends_headers_only h sv w r f :
  m h !! requestKey r = Some f ->
  reqMethod r = "HEAD" ->
  Zip.Method f = Zip.Store \/ Zip.Method f = Zip.Deflate ->
  hGet (reqHeader r) "Range" = "" ->
  String.eqb (hGet (reqHeader r) "If-None-Match") (calcEtag f) = false ->
  String.eqb (hGet (reqHeader r) "If-None-Match") "*" = false ->
  let w' := snd (ServeHTTP mime parseTime serveContent h sv w r) in
  fst (ServeHTTP mime parseTime serveContent h sv w r) = sv
  /\ body w' = body w
  /\ status w' = status w
  /\ header w' !! "Content-Length"
     = Some [Fmt.fmt_d (if passesThrough r f then Zip.CompressedSize64 f
                        else Zip.UncompressedSize64 f)]
  /\ header w' !! "Content-Encoding"
     = (if passesThrough r f then Some ["deflate"] else None).
Proof.
  intros Hf Hm Hmeth Hrange Hinm Hstar.
  unfold passesThrough.
  rewrite <- (normalize_method r) in Hm.
  rewrite <- (normalize_header r) in Hrange, Hinm, Hstar |- *.
  unfold ServeHTTP. cbv zeta. rewrite Hf.
  set (r' := normalizeRequest r) in *.
  rewrite (checkETag_pass parseTime);
    [| exact Hrange | simpl; rewrite hGet_hSet_eq; exact Hinm | exact Hstar].
  simpl negb. cbv iota.
  set (w1 := withHeader (hSet (header w) "Etag" (calcEtag f)) w).
  assert (Hopen : zipOpen f = inr (Zip.content f)).
  { unfold zipOpen. destruct Hmeth as [-> | ->]; reflexivity. }
  assert (Hid : let wi := serveIdentity mime w1 r' f in
            body wi = body w /\ status wi = status w
            /\ header wi !! "Content-Length"
               = Some [Fmt.fmt_d (Zip.UncompressedSize64 f)]
            /\ header wi !! "Content-Encoding" = None).
  { unfold serveIdentity. rewrite Hopen. cbv zeta. rewrite Hm. simpl.
    rewrite setContentType_status, setContentType_body.
    repeat split.
    - unfold hSet. apply lookup_insert_eq.
    - unfold hSet, hDel. rewrite lookup_insert_ne by discriminate.
      apply lookup_delete_eq. }
  destruct Hmeth as [Hs|Hd].
  - rewrite Hs. simpl Z.eqb. cbv iota. simpl andb. cbv iota.
    simpl fst. simpl snd. split; [reflexivity|]. exact Hid.
  - rewrite Hd. simpl Z.eqb. cbv iota. simpl andb.
    unfold serveDeflate. cbv zeta.
    destruct (Strings.Contains (hGet (reqHeader r') "Accept-Encoding") "deflate").
    + simpl negb. cbv iota. rewrite Hm. simpl String.eqb. cbv iota.
      simpl fst. simpl snd. split; [apply Server_eta|].
      simpl. rewrite setContentType_status, setContentType_body.
      repeat split.
      * unfold hSet. apply lookup_insert_eq.
      * unfold hSet. rewrite lookup_insert_ne by discriminate. apply lookup_insert_eq.
    + simpl negb. cbv iota. simpl fst. simpl snd.
      split; [apply Server_eta|]. exact Hid.
Qed.

(** X13: a GET for a stored entry (no Range, no matching If-None-Match) is
    always served as it is, whatever Accept-Encoding says: the response
    carries no Content-Encoding header, even if one had been set before,
    Content-Length is the uncompressed size, and the body is the entry's
    content. *)
Theorem stored_entry_is_served_as_is h sv w r f :
  m h !! requestKey r = Some f ->
  reqMethod r = "GET" ->
  Zip.Method f = Zip.Store ->
  hGet (reqHeader r) "Range" = "" ->
  String.eqb (hGet (reqHeader r) "If-None-Match") (calcEtag f) = false ->
  String.eqb (hGet (reqHeader r) "If-None-Match") "*" = false ->
  Zip.UncompressedSize64 f = Z.of_nat (List.length (Zip.content f)) ->
  Zip.UncompressedSize64 f < 2 ^ 63 ->
  let w' := snd (ServeHTTP mime parseTime serveContent h sv w r) in
  fst (ServeHTTP mime parseTime serveContent h sv w r) = sv
  /\ status w' = status w
  /\ header w' !! "Content-Encoding" = None
  /\ header w' !! "Content-Length" = Some [Fmt.fmt_d (Zip.UncompressedSize64 f)]
  /\ body w' = body w ++ Zip.content f.
Proof.
  intros Hf Hm Hmeth Hrange Hinm Hstar Hus Hus63.
  rewrite <- (normalize_method r) in Hm.
  rewrite <- (normalize_header r) in Hrange, Hinm, Hstar.
  unfold ServeHTTP. cbv zeta. rewrite Hf.
  set (r' := normalizeRequest r) in *.
  rewrite (checkETag_pass parseTime);
    [| exact Hrange | simpl; rewrite hGet_hSet_eq; exact Hinm | exact Hstar].
  simpl negb. cbv iota. rewrite Hmeth. simpl Z.eqb. cbv iota.
  simpl fst. simpl snd. split; [reflexivity|].
  unfold serveIdentity, zipOpen. rewrite Hmeth. simpl Z.eqb. simpl orb. cbv iota.
  cbv zeta. rewrite Hm. simpl String.eqb. simpl negb. cbv iota.
  unfold copyN, Write. simpl.
  rewrite setContentType_status, setContentType_body.
  split; [reflexivity|]. split; [|split].
  - unfold hSet, hDel. rewrite lookup_insert_ne by discriminate. apply lookup_delete_eq.
  - unfold hSet. apply lookup_insert_eq.
  - f_equal. rewrite int64_id by lia. rewrite Hus, Nat2Z.id. apply firstn_all.
Qed.

(** X14: setContentType never overrides a content type the caller has
    set: the first value set stays (alone); without one, the type is the
    MIME type of the file's extension, or application/octet-stream when the
    extension is unknown. No other header is touched. *)
Theorem setContentType_respects_the_caller (w : ResponseWriter) (filename : string) :
  (forall c rest, header w !! "Content-Type" = Some (c :: rest) -> c <> "" ->
     header (setContentType mime w filename) !! "Content-Type" = Some [c])
  /\ (header w !! "Content-Type" = None ->
      header (setContentType mime w filename) !! "Content-Type"
      = Some [if String.eqb (mime (Path.Ext (Path.Base filename))) ""
              then "application/octet-stream"
              else mime (Path.Ext (Path.Base filename))])
  /\ (forall k, k <> "Content-Type" ->
        header (setContentType mime w filename) !! k = header w !! k)
  /\ body (setContentType mime w filename) = body w
  /\ status (setContentType mime w filename) = status w.
Proof.
  split; [|split; [|split; [|split]]].
  - intros c rest Hc Hne. unfold setContentType. rewrite Hc.
    destruct (String.eqb_spec c ""); [contradiction|].
    simpl. unfold hSet. apply lookup_insert_eq.
  - intros Hnone. unfold setContentType. rewrite Hnone.
    destruct (String.eqb_spec (mime (Path.Ext (Path.Base filename))) "") as [E|E].
    + simpl. unfold hSet. apply lookup_insert_eq.
    + destruct (String.eqb_spec (mime (Path.Ext (Path.Base filename))) "");
        [contradiction|].
      simpl. unfold hSet. apply lookup_insert_eq.
  - intros k Hk. apply setContentType_header. exact Hk.
  - apply setContentType_body.
  - apply setContentType_status.
Qed.

End HandlerStrategies.

Section HandlerFailures.

Variable mime : string -> string.
Variable parseTime : string -> option Z.
Variable serveContent :
  ResponseWriter -> Request -> string -> Z -> bytes -> ResponseWriter.

Lemma Write_nil w : Write [] w = w.
Proof. destruct w. unfold Write. simpl. rewrite app_nil_r. reflexivity. Qed.

Lemma Write_Write a b w : Write b (Write a w) = Write (a ++ b) w.
Proof. unfold Write. simpl. rewrite app_assoc. reflexivity. Qed.

(** The copy loop over an archive that ends before the payload does: the
    whole buffers that can still be read are written; then the read fails,
    which is reported only if nothing has been written so far. *)
Lemma deflateLoop_truncated src buf : forall fuel remaining offset written w,
  (0 < buf)%nat ->
  0 <= offset <= Z.of_nat (List.length src) ->
  0 <= written ->
  Z.of_nat (List.length src) - offset < remaining ->
  (Z.to_nat remaining <= fuel)%nat ->
  deflateLoop fuel src buf remaining offset written w =
    let k := ((List.length src - Z.to_nat offset) / buf)%nat in
    let w' := Write (take (k * buf) (drop (Z.to_nat offset) src)) w in
    if (written =? 0) && (k =? 0)%nat then internalServerError w EOF else w'.
Proof.
  induction fuel as [|fuel IH]; intros remaining offset written w Hbuf Hoff Hw Hrem Hfuel;
    [lia|].
  cbn [deflateLoop]. destruct (Z.ltb_spec 0 remaining) as [_|]; [|lia].
  cbv zeta.
  set (avail := (List.length src - Z.to_nat offset)%nat).
  set (size := if remaining <? Z.of_nat buf then Z.to_nat remaining else buf).
  unfold ReadAt. destruct (Z.ltb_spec offset 0) as [|_]; [lia|].
  assert (Hgot : List.length (take size (drop (Z.to_nat offset) src))
                 = Nat.min size avail).
  { rewrite length_take, length_drop. reflexivity. }
  rewrite Hgot.
  destruct (Nat.ltb_spec (Nat.min size avail) size) as [Hshort|Hfull].
  - (* the buffer cannot be filled *)
    assert (Hk : (avail / buf = 0)%nat).
    { apply Nat.div_small. subst size.
      destruct (Z.ltb_spec remaining (Z.of_nat buf)); lia. }
    rewrite Hk. simpl Nat.mul. simpl take. rewrite Write_nil.
    simpl Nat.eqb. rewrite andb_true_r. reflexivity.
  - (* a whole buffer is read and written *)
    assert (Hsize : size = buf).
    { subst size. destruct (Z.ltb_spec remaining (Z.of_nat buf)); [|reflexivity].
      subst avail. lia. }
    rewrite Hsize in *.
    rewrite IH; try lia.
    cbv zeta.
    replace (Z.to_nat (offset + Z.of_nat buf)) with (Z.to_nat offset + buf)%nat by lia.
    assert (Hdiv : (avail / buf = S ((List.length src - (Z.to_nat offset + buf)) / buf))%nat).
    { replace avail with ((List.length src - (Z.to_nat offset + buf)) + 1 * buf)%nat
        by (subst avail; lia).
      rewrite Nat.div_add by lia. lia. }
    rewrite Hdiv.
    destruct (Z.eqb_spec (written + Z.of_nat buf) 0) as [|_]; [lia|].
    cbn [Nat.eqb andb]. rewrite andb_false_r.
    rewrite Write_Write. f_equal.
    rewrite <- drop_drop, take_take_drop. reflexivity.
Qed.

(** X15: when the archive ends before the payload of a deflated entry
    does, serveDeflate sends the whole buffers it can still read and then
    stops: if not even the first buffer could be filled the client gets the
    status 500 and the text of the read error, otherwise the response just
    ends, short of the announced length and with no error reported. *)
Theorem truncated_payload_is_cut_short pool0 w r f src :
  Strings.Contains (hGet (reqHeader r) "Accept-Encoding") "deflate" = true ->
  reqMethod r = "GET" ->
  0 <= Zip.headerOffset f <= Z.of_nat (List.length src) ->
  Zip.CompressedSize64 f < 2 ^ 63 ->
  Z.of_nat (List.length src) - Zip.headerOffset f < Zip.CompressedSize64 f ->
  let buf := snd (getBuf pool0) in
  let k := ((List.length src - Z.to_nat (Zip.headerOffset f)) / buf)%nat in
  let w' := snd (serveDeflate mime pool0 w r f src) in
  if (k =? 0)%nat
  then status w' = StatusInternalServerError
       /\ body w' = body w ++ list_byte_of_string "EOF" ++ [Byte.x0a]
  else status w' = status w
       /\ body w' = body w ++ take (k * buf) (drop (Z.to_nat (Zip.headerOffset f)) src)
       /\ Z.of_nat (k * buf) < Zip.CompressedSize64 f.
Proof.
  intros Hacc Hm Hoff Hcs Htrunc.
  unfold serveDeflate. cbv zeta. rewrite Hacc, Hm. simpl negb. simpl String.eqb. cbv iota.
  pose proof (getBuf_positive pool0) as Hpos.
  destruct (getBuf pool0) as [pool1 buf]. simpl in Hpos. simpl snd.
  rewrite int64_id by lia.
  rewrite deflateLoop_truncated by lia. cbv zeta. simpl Z.eqb. simpl andb.
  destruct (Nat.eqb_spec ((List.length src - Z.to_nat (Zip.headerOffset f)) / buf) 0)
    as [Hk|Hk].
  - unfold internalServerError, httpError, Write, WriteHeader. simpl.
    rewrite setContentType_body. split; reflexivity.
  - unfold Write. simpl. rewrite setContentType_status, setContentType_body.
    split; [reflexivity|]. split; [reflexivity|].
    pose proof (Nat.Div0.mul_div_le (List.length src - Z.to_nat (Zip.headerOffset f)) buf).
    lia.
Qed.

(** X16: an entry compressed by a method other than store and deflate is
    never served: unless If-None-Match settles the request, the client gets
    the status 500 and a plain-text message, nothing is left in the
    temporary directory and no buffer is taken. *)
Theorem unsupported_method_gives_500 h sv w r f :
  m h !! requestKey r = Some f ->
  Zip.Method f <> Zip.Store -> Zip.Method f <> Zip.Deflate ->
  String.eqb (hGet (reqHeader r) "If-None-Match") (calcEtag f) = false ->
  String.eqb (hGet (reqHeader r) "If-None-Match") "*" = false ->
  let w' := snd (ServeHTTP mime parseTime serveContent h sv w r) in
  fst (ServeHTTP mime parseTime serveContent h sv w r) = sv
  /\ status w' = StatusInternalServerError
  /\ header w' !! "Content-Type" = Some ["text/plain; charset=utf-8"]
  /\ exists msg, body w' = body w ++ list_byte_of_string msg ++ [Byte.x0a].
Proof.
  intros Hf Hns Hnd Hinm Hstar.
  rewrite <- (normalize_header r) in Hinm, Hstar.
  unfold ServeHTTP. cbv zeta. rewrite Hf.
  set (r' := normalizeRequest r) in *.
  set (w1 := withHeader (hSet (header w) "Etag" (calcEtag f)) w).
  assert (Hck : exists rr, checkETag parseTime w1 r' (Zip.Modified f) = (w1, rr, false)).
  { unfold checkETag. cbv zeta.
    replace (hGet (header w1) "Etag") with (calcEtag f)
      by (subst w1; simpl; rewrite hGet_hSet_eq; reflexivity).
    rewrite Hinm, Hstar. simpl orb. cbv iota.
    repeat match goal with |- context [if ?b then _ else _] => destruct b end;
      eexists; reflexivity. }
  destruct Hck as [rr ->]. cbv iota.
  assert (Hopen : zipOpen f = inl ErrAlgorithm).
  { unfold zipOpen. destruct (Z.eqb_spec (Zip.Method f) Zip.Store); [contradiction|].
    destruct (Z.eqb_spec (Zip.Method f) Zip.Deflate); [contradiction|]. reflexivity. }
  destruct (negb (String.eqb rr "")).
  - unfold serveStandard, createTempFile. rewrite Hopen.
    cbn [fst snd world pool]. split; [apply Server_eta|].
    split; [reflexivity|]. split.
    + unfold internalServerError, httpError, hSet. simpl.
      rewrite lookup_insert_ne by discriminate. apply lookup_insert_eq.
    + exists (errorText ErrAlgorithm). reflexivity.
  - destruct (Z.eqb_spec (Zip.Method f) Zip.Store); [contradiction|].
    destruct (Z.eqb_spec (Zip.Method f) Zip.Deflate); [contradiction|].
    cbn [fst snd]. split; [reflexivity|]. split; [reflexivity|]. split.
    + unfold httpError, hSet. simpl.
      rewrite lookup_insert_ne by discriminate. apply lookup_insert_eq.
    + exists ("unsupported zip method: " +:+ Fmt.fmt_d (Zip.Method f)). reflexivity.
Qed.

(** X17: for a method other than GET and HEAD, checkETag never answers
    the request itself: the response is left as it is and the request is
    not done, and If-None-Match has no influence on the outcome. *)
Theorem checkETag_acts_on_GET_and_HEAD_only w r modtime :
  reqMethod r <> "GET" -> reqMethod r <> "HEAD" ->
  fst (fst (checkETag parseTime w r modtime)) = w
  /\ snd (checkETag parseTime w r modtime) = false
  /\ checkETag parseTime w r modtime
     = checkETag parseTime w (withoutHeader "If-None-Match" r) modtime.
Proof.
  intros Hg Hh. unfold checkETag. cbv zeta. simpl reqHeader. simpl reqMethod.
  rewrite hGet_hDel_eq. rewrite !(hGet_hDel_ne _ _ "If-None-Match") by discriminate.
  destruct (String.eqb_spec (reqMethod r) "GET"); [contradiction|].
  destruct (String.eqb_spec (reqMethod r) "HEAD"); [contradiction|].
  simpl negb. simpl andb. cbv iota.
  repeat match goal with |- context [if ?b then _ else _] => destruct b end;
    repeat split.
Qed.

(** X18: a GET or HEAD request with If-None-Match: * for an entry of the
    archive is answered 304 Not Modified, with the entity tag set, without
    Content-Type and Content-Length and without a body byte. *)
Theorem wildcard_If_None_Match_gives_not_modified h sv w r f :
  m h !! requestKey r = Some f ->
  reqMethod r = "GET" \/ reqMethod r = "HEAD" ->
  hGet (reqHeader r) "If-None-Match" = "*" ->
  exists w',
    ServeHTTP mime parseTime serveContent h sv w r = (sv, w')
    /\ status w' = StatusNotModified
    /\ header w' !! "Content-Type" = None
    /\ header w' !! "Content-Length" = None
    /\ hGet (header w') "Etag" = calcEtag f
    /\ body w' = body w.
Proof.
  intros Hf Hm Hinm.
  rewrite <- (normalize_method r) in Hm. rewrite <- (normalize_header r) in Hinm.
  unfold ServeHTTP. cbv zeta. rewrite Hf.
  set (r' := normalizeRequest r) in *.
  set (w1 := withHeader (hSet (header w) "Etag" (calcEtag f)) w).
  assert (Hck : checkETag parseTime w1 r' (Zip.Modified f)
                = (WriteHeader StatusNotModified
                     (withHeader (hDel (hDel (header w1) "Content-Type") "Content-Length") w1),
                   "", true)).
  { unfold checkETag. cbv zeta.
    replace (hGet (header w1) "Etag") with (calcEtag f)
      by (subst w1; simpl; rewrite hGet_hSet_eq; reflexivity).
    rewrite Hinm, calcEtag_nonempty.
    destruct (String.eqb "*" (calcEtag f)) eqn:E;
      destruct Hm as [-> | ->]; reflexivity. }
  rewrite Hck. eexists. split; [reflexivity|]. simpl. unfold hDel, hSet.
  repeat split.
  - rewrite lookup_delete_ne by discriminate. apply lookup_delete_eq.
  - apply lookup_delete_eq.
  - unfold hGet. rewrite !lookup_delete_ne by discriminate.
    rewrite lookup_insert_eq. reflexivity.
Qed.

End HandlerFailures.

(** *** The handler properties on the small archive *)

Lemma stale_If_Range_drops_the_Range_witness :
  ServeHTTP exMime exParseTime exServeContent exHandler2 exServer NewResponseWriter
    (exRequest "GET" "/js/app.js"
       [("Range", ["bytes=0-1"]); ("If-Range", ["Sat, 01 Jan 2000 00:00:00 GMT"])])
  = ServeHTTP exMime exParseTime exServeContent exHandler2 exServer NewResponseWriter
      (withoutHeader "Range"
         (exRequest "GET" "/js/app.js"
            [("Range", ["bytes=0-1"]); ("If-Range", ["Sat, 01 Jan 2000 00:00:00 GMT"])])).
Proof.
  apply (stale_If_Range_drops_the_Range exMime exParseTime exServeContent
           exHandler2 exServer NewResponseWriter _ exDeflated).
  - vm_compute. reflexivity.
  - vm_compute. reflexivity.
  - vm_compute. reflexivity.
  - right. discriminate.
Defined.

Lemma Range_request_is_delegated_and_cleaned_up_witness :
  ServeHTTP exMime exParseDate exServeContent exHandler2 exServer NewResponseWriter
    (exRequest "GET" "js/app.js"
       [("Range", ["bytes=0-1"]); ("If-Range", ["Fri, 14 Jul 2017 02:40:00 GMT"])])
  = (mkServer (mkWorld (heap (world exServer)) (disk (world exServer))
                 (S (tempSeq (world exServer))))
       (pool exServer),
     exServeContent
       (withHeader (hSet (header NewResponseWriter) "Etag" (calcEtag exDeflated))
          NewResponseWriter)
       (normalizeRequest
          (exRequest "GET" "js/app.js"
             [("Range", ["bytes=0-1"]);
              ("If-Range", ["Fri, 14 Jul 2017 02:40:00 GMT"])]))
       (Zip.Name exDeflated) (Zip.Modified exDeflated) (Zip.content exDeflated)).
Proof.
  apply (Range_request_is_delegated_and_cleaned_up exMime exParseDate exServeContent
           exHandler2 exServer NewResponseWriter _ exDeflated).
  - vm_compute. reflexivity.
  - vm_compute. reflexivity.
  - left. split; vm_compute; reflexivity.
  - right. right. split; vm_compute; reflexivity.
  - right. reflexivity.
  - vm_compute. reflexivity.
Defined.

Lemma HEAD_sends_headers_only_witness :
  let r := exRequest "HEAD" "/js/app.js" [("Accept-Encoding", ["deflate"])] in
  let w' := snd (ServeHTTP exMime exParseTime exServeContent exHandler2 exServer
                   NewResponseWriter r) in
  fst (ServeHTTP exMime exParseTime exServeContent exHandler2 exServer
         NewResponseWriter r) = exServer
  /\ body w' = body NewResponseWriter
  /\ status w' = status NewResponseWriter
  /\ header w' !! "Content-Length"
     = Some [Fmt.fmt_d (if passesThrough r exDeflated
                        then Zip.CompressedSize64 exDeflated
                        else Zip.UncompressedSize64 exDeflated)]
  /\ header w' !! "Content-Encoding"
     = (if passesThrough r exDeflated then Some ["deflate"] else None).
Proof.
  apply (HEAD_sends_headers_only exMime exParseTime exServeContent
           exHandler2 exServer NewResponseWriter
           (exRequest "HEAD" "/js/app.js" [("Accept-Encoding", ["deflate"])])
           exDeflated).
  - vm_compute. reflexivity.
  - reflexivity.
  - right. reflexivity.
  - vm_compute. reflexivity.
  - vm_compute. reflexivity.
  - vm_compute. reflexivity.
Defined.

Lemma stored_entry_is_served_as_is_witness :
  let f := exEntry "readme.txt" [Byte.x68; Byte.x65; Byte.x6c; Byte.x6c; Byte.x6f] in
  let r := exRequest "GET" "/readme.txt" [("Accept-Encoding", ["deflate, gzip"])] in
  let w0 := mkResponse {["Content-Encoding" := ["gzip"]]} 200 [] in
  let w' := snd (ServeHTTP exMime exParseTime exServeContent exHandler2 exServer w0 r) in
  fst (ServeHTTP exMime exParseTime exServeContent exHandler2 exServer w0 r) = exServer
  /\ status w' = status w0
  /\ header w' !! "Content-Encoding" = None
  /\ header w' !! "Content-Length" = Some [Fmt.fmt_d (Zip.UncompressedSize64 f)]
  /\ body w' = body w0 ++ Zip.content f.
Proof.
  apply (stored_entry_is_served_as_is exMime exParseTime exServeContent
           exHandler2 exServer
           (mkResponse {["Content-Encoding" := ["gzip"]]} 200 [])
           (exRequest "GET" "/readme.txt" [("Accept-Encoding", ["deflate, gzip"])])
           (exEntry "readme.txt" [Byte.x68; Byte.x65; Byte.x6c; Byte.x6c; Byte.x6f])).
  - vm_compute. reflexivity.
  - reflexivity.
  - reflexivity.
  - vm_compute. reflexivity.
  - vm_compute. reflexivity.
  - vm_compute. reflexivity.
  - reflexivity.
  - simpl. lia.
Defined.

Lemma truncated_payload_is_cut_short_witness :
  let r := exRequest "GET" "/big.js" [("Accept-Encoding", ["deflate"])] in
  let buf := snd (getBuf []) in
  let k := ((List.length exArchive - Z.to_nat (Zip.headerOffset exCutOff)) / buf)%nat in
  let w' := snd (serveDeflate exMime [] NewResponseWriter r exCutOff exArchive) in
  if (k =? 0)%nat
  then status w' = StatusInternalServerError
       /\ body w' = body NewResponseWriter ++ list_byte_of_string "EOF" ++ [Byte.x0a]
  else status w' = status NewResponseWriter
       /\ body w' = body NewResponseWriter
                    ++ take (k * buf) (drop (Z.to_nat (Zip.headerOffset exCutOff)) exArchive)
       /\ Z.of_nat (k * buf) < Zip.CompressedSize64 exCutOff.
Proof.
  apply (truncated_payload_is_cut_short exMime [] NewResponseWriter
           (exRequest "GET" "/big.js" [("Accept-Encoding", ["deflate"])])
           exCutOff exArchive).
  - vm_compute. reflexivity.
  - reflexivity.
  - simpl. lia.
  - simpl. lia.
  - simpl. lia.
Defined.

Lemma unsupported_method_gives_500_witness :
  let r := exRequest "GET" "/old.bz2" [] in
  let w' := snd (ServeHTTP exMime exParseTime exServeContent exHandler2 exServer
                   NewResponseWriter r) in
  fst (ServeHTTP exMime exParseTime exServeContent exHandler2 exServer
         NewResponseWriter r) = exServer
  /\ status w' = StatusInternalServerError
  /\ header w' !! "Content-Type" = Some ["text/plain; charset=utf-8"]
  /\ exists msg, body w' = body NewResponseWriter ++ list_byte_of_string msg ++ [Byte.x0a].
Proof.
  apply (unsupported_method_gives_500 exMime exParseTime exServeContent
           exHandler2 exServer NewResponseWriter (exRequest "GET" "/old.bz2" []) exBzip).
  - vm_compute. reflexivity.
  - discriminate.
  - discriminate.
  - vm_compute. reflexivity.
  - vm_compute. reflexivity.
Defined.

Lemma checkETag_acts_on_GET_and_HEAD_only_witness :
  let r := exRequest "POST" "/js/app.js" [("If-None-Match", ["*"])] in
  fst (fst (checkETag exParseTime NewResponseWriter r 1500000000)) = NewResponseWriter
  /\ snd (checkETag exParseTime NewResponseWriter r 1500000000) = false
  /\ checkETag exParseTime NewResponseWriter r 1500000000
     = checkETag exParseTime NewResponseWriter (withoutHeader "If-None-Match" r) 1500000000.
Proof.
  apply (checkETag_acts_on_GET_and_HEAD_only exParseTime NewResponseWriter
           (exRequest "POST" "/js/app.js" [("If-None-Match", ["*"])]) 1500000000).
  - discriminate.
  - discriminate.
Defined.

Lemma wildcard_If_None_Match_gives_not_modified_witness :
  exists w',
    ServeHTTP exMime exParseTime exServeContent exHandler2 exServer NewResponseWriter
      (exRequest "HEAD" "/readme.txt" [("If-None-Match", ["*"])]) = (exServer, w')
    /\ status w' = StatusNotModified
    /\ header w' !! "Content-Type" = None
    /\ header w' !! "Content-Length" = None
    /\ hGet (header w') "Etag"
       = calcEtag (exEntry "readme.txt" [Byte.x68; Byte.x65; Byte.x6c; Byte.x6c; Byte.x6f])
    /\ body w' = body NewResponseWriter.
Proof.
  apply (wildcard_If_None_Match_gives_not_modified exMime exParseTime exServeContent
           exHandler2 exServer NewResponseWriter
           (exRequest "HEAD" "/readme.txt" [("If-None-Match", ["*"])])).
  - vm_compute. reflexivity.
  - right. reflexivity.
  - vm_compute. reflexivity.
Defined.

(** ** The buffer pool and the state around a request *)

Section HandlerFrame.

Variable mime : string -> string.
Variable parseTime : string -> option Z.
Variable serveContent :
  ResponseWriter -> Request -> string -> Z -> bytes -> ResponseWriter.

Lemma getBuf_poolOK pool0 : poolOK pool0 -> poolOK (fst (getBuf pool0)).
Proof.
  unfold poolOK, getBuf. destruct pool0 as [|b rest]; simpl; [auto|].
  intros H. apply Forall_cons in H as [_ H]. exact H.
Qed.

Lemma getBuf_large pool0 : (bufSize <= snd (getBuf pool0))%nat.
Proof.
  unfold getBuf. destruct pool0 as [|b rest]; simpl; [lia|].
  destruct (Nat.ltb_spec b bufSize); lia.
Qed.

Lemma freeBuf_poolOK pool0 b : poolOK pool0 -> poolOK (freeBuf pool0 b).
Proof.
  unfold poolOK, freeBuf. intros H.
  destruct (Nat.leb_spec bufSize b); [constructor; assumption|exact H].
Qed.

(** X19: the pool never hands out a buffer of fewer than 32768 bytes,
    even if it has been given shorter ones, and a pool that holds only
    buffers of at least that size still does so after a buffer is freed,
    whatever its size, and after serveDeflate has served a request. *)
Theorem pool_buffers_are_never_short pool0 b w r f src :
  (bufSize <= snd (getBuf pool0))%nat
  /\ (poolOK pool0 -> poolOK (fst (getBuf pool0)))
  /\ (poolOK pool0 -> poolOK (freeBuf pool0 b))
  /\ (poolOK pool0 -> poolOK (fst (serveDeflate mime pool0 w r f src))).
Proof.
  split; [apply getBuf_large|]. split; [apply getBuf_poolOK|].
  split; [apply freeBuf_poolOK|].
  intros H. unfold serveDeflate. cbv zeta.
  destruct (negb _); [exact H|].
  destruct (String.eqb _ _); [exact H|].
  pose proof (getBuf_poolOK pool0 H) as H1.
  destruct (getBuf pool0) as [pool1 buf]. simpl in *.
  apply freeBuf_poolOK. exact H1.
Qed.

(** X20: a request whose cleaned path is not the name of an entry behind
    a slash is answered 404 with the standard text; no entity tag is set,
    no body of an entry is written and the state of the server is left
    alone. *)
Theorem unknown_path_gives_404 raw entries sv w r :
  (forall f, f ∈ entries -> requestKey r <> "/" +:+ Zip.Name f) ->
  ServeHTTP mime parseTime serveContent (handlerOver raw entries) sv w r
  = (sv, httpError w "404 page not found" StatusNotFound)
  /\ status (httpError w "404 page not found" StatusNotFound) = StatusNotFound
  /\ header (httpError w "404 page not found" StatusNotFound) !! "Etag"
     = header w !! "Etag"
  /\ body (httpError w "404 page not found" StatusNotFound)
     = body w ++ list_byte_of_string "404 page not found" ++ [Byte.x0a].
Proof.
  intros Hnone. split; [|split; [reflexivity|split; [|reflexivity]]].
  - unfold ServeHTTP. cbv zeta.
    destruct (m (handlerOver raw entries) !! requestKey r) as [f|] eqn:Hf; [|reflexivity].
    unfold handlerOver in Hf. simpl in Hf.
    destruct (handler_fold_sound entries ∅ _ f Hf) as [[Hin Hkey]|Hempty].
    + exfalso. exact (Hnone f Hin Hkey).
    + rewrite lookup_empty in Hempty. discriminate.
  - apply httpError_header; discriminate.
Qed.

(** X21: no request ever changes the index: the nodes, and with them the
    memoized paths of temporary files, are after the request what they
    were before; at most one temporary name is consumed, and no file other
    than the one of that name is created, changed or removed. *)
Theorem ServeHTTP_leaves_the_index_alone h sv w r :
  let sv' := fst (ServeHTTP mime parseTime serveContent h sv w r) in
  heap (world sv') = heap (world sv)
  /\ (tempSeq (world sv') = tempSeq (world sv)
      \/ tempSeq (world sv') = S (tempSeq (world sv)))
  /\ (forall k, k <> tempName (tempSeq (world sv)) ->
        disk (world sv') !! k = disk (world sv) !! k).
Proof.
  unfold ServeHTTP. cbv zeta.
  destruct (m h !! requestKey r) as [f|]; [|simpl; auto].
  destruct (checkETag parseTime _ _ _) as [[w2 rr] done].
  destruct done; [simpl; auto|].
  destruct (negb (String.eqb rr "")).
  - unfold serveStandard, createTempFile.
    destruct (zipOpen f) as [e|data]; simpl; [auto|].
    split; [reflexivity|]. split; [auto|].
    intros k Hk. rewrite lookup_delete_ne by congruence.
    rewrite lookup_insert_ne by congruence. reflexivity.
  - destruct (Zip.Method f =? Zip.Store); [simpl; auto|].
    destruct (Zip.Method f =? Zip.Deflate); [|simpl; auto].
    destruct (serveDeflate mime (pool sv) w2 (normalizeRequest r) f (hReaderAt h)).
    simpl. auto.
Qed.

End HandlerFrame.

Lemma unknown_path_gives_404_witness :
  ServeHTTP exMime exParseTime exServeContent
    (handlerOver exArchive [exDeflated; exRandomDat]) exServer NewResponseWriter
    (exRequest "GET" "/does/not/exist" [])
  = (exServer, httpError NewResponseWriter "404 page not found" StatusNotFound)
  /\ status (httpError NewResponseWriter "404 page not found" StatusNotFound)
     = StatusNotFound
  /\ header (httpError NewResponseWriter "404 page not found" StatusNotFound) !! "Etag"
     = header NewResponseWriter !! "Etag"
  /\ body (httpError NewResponseWriter "404 page not found" StatusNotFound)
     = body NewResponseWriter ++ list_byte_of_string "404 page not found" ++ [Byte.x0a].
Proof.
  apply (unknown_path_gives_404 exMime exParseTime exServeContent exArchive
           [exDeflated; exRandomDat] exServer NewResponseWriter
           (exRequest "GET" "/does/not/exist" [])).
  intros f Hf.
  apply elem_of_cons in Hf as [->|Hf]; [discriminate|].
  apply elem_of_cons in Hf as [->|Hf]; [discriminate|].
  apply elem_of_nil in Hf. contradiction.
Defined.
